(** * PushPullS3: streaming a DocumentArray to and from S3

    A shallow embedding of [docarray/array/array/pushpull/s3.py] and the
    properties of its four entry points ([list], [delete], [push] /
    [push_stream], [pull] / [pull_stream]).

    - Python [str] is [string], [bytes] is [list byte], [int] is [Z].
    - Exceptions are values of [exn]; a call that may raise returns a
      [Result].
    - [io.BytesIO] is a byte list with a cursor; its [write] overwrites at
      the cursor, exactly as CPython does.
    - [boto3] is an interface ([S3Resource]) threaded through a state; the
      [smart_open] file objects are modelled over a map from URL to object
      content. *)

From Stdlib Require Import ZArith Lia Ascii String List.
From Stdlib Require Import Strings.Byte.
From stdpp Require Import base list strings gmap pretty.

Local Open Scope string_scope.
Local Open Scope list_scope.
Local Open Scope Z_scope.

(** ** Python values *)

Abbreviation bytes := (list byte).

(** The exceptions that the module raises, catches or lets through.
    [ClientError] carries the [response['Error']] fields the code looks at
    ([Code]) plus the message, so that re-raising can be seen to keep the
    value intact. *)
Inductive exn : Type :=
| ValueError (msg : string)
| ClientError (code : string) (message : string)
| OSError (msg : string)
| OtherError (cls : string) (msg : string).

Inductive Result (A : Type) : Type :=
| Ok (a : A)
| Raise (e : exn).
Arguments Ok {A} a.
Arguments Raise {A} e.

Definition rbind {A B} (r : Result A) (k : A -> Result B) : Result B :=
  match r with
  | Ok a => k a
  | Raise e => Raise e
  end.

(** ** [str] methods used by the module *)

Module Str.

(** [s.split(sep, maxsplit)] for a one-character separator.  As in
    Python, a negative [maxsplit] (the default, -1) means no limit. *)
Fixpoint split (sep : ascii) (maxsplit : Z) (s : string) : list string :=
  match s with
  | EmptyString => [EmptyString]
  | String c s' =>
      if maxsplit =? 0 then [s]
      else if Ascii.eqb c sep then EmptyString :: split sep (maxsplit - 1) s'
      else
        match split sep maxsplit s' with
        | h :: t => String c h :: t
        | [] => [String c EmptyString]
        end
  end.

(** [s.startswith(p)] *)
Fixpoint startswith (s p : string) : bool :=
  match p, s with
  | EmptyString, _ => true
  | String _ _, EmptyString => false
  | String a p', String b s' => Ascii.eqb a b && startswith s' p'
  end.

(** [s.endswith(p)]: the last [len(p)] characters of [s] are [p]. *)
Definition endswith (s p : string) : bool :=
  (String.length p <=? String.length s)%nat &&
  String.eqb (substring (String.length s - String.length p) (String.length p) s) p.

(** [l[-1]] and [l[0]] on a list of strings; [IndexError] on []. *)
Definition index_last (l : list string) : Result string :=
  match l with
  | [] => Raise (OtherError "IndexError" "list index out of range")
  | x :: l' => Ok (List.last l' x)
  end.

Definition index_0 (l : list string) : Result string :=
  match l with
  | [] => Raise (OtherError "IndexError" "list index out of range")
  | x :: _ => Ok x
  end.

End Str.

(** [a, b = l]: unpacking a list into exactly two targets. *)
Definition unpack2 (l : list string) : Result (string * string) :=
  match l with
  | [a; b] => Ok (a, b)
  | [] => Raise (ValueError "not enough values to unpack (expected 2, got 0)")
  | [_] => Raise (ValueError "not enough values to unpack (expected 2, got 1)")
  | _ => Raise (ValueError "too many values to unpack (expected 2)")
  end.

(** ** State-and-exception monad

    Every entry point runs against some state of the outside world and
    either returns a value or raises. *)

Definition M (St A : Type) : Type := St -> Result A * St.

Definition ret {St A} (a : A) : M St A := fun st => (Ok a, st).
Definition raise {St A} (e : exn) : M St A := fun st => (Raise e, st).
Definition lift {St A} (r : Result A) : M St A := fun st => (r, st).
Definition bind {St A B} (m : M St A) (k : A -> M St B) : M St B :=
  fun st =>
    match m st with
    | (Ok a, st') => k a st'
    | (Raise e, st') => (Raise e, st')
    end.

(** [try: m except ...]: the outcome of [m] as a value. *)
Definition attempt {St A} (m : M St A) : M St (Result A) :=
  fun st => let '(r, st') := m st in (Ok r, st').

Declare Scope py_scope.
Delimit Scope py_scope with py.
Notation "'let*' p ':=' m 'in' k" := (bind m (fun p => k))
  (at level 10, p pattern, m at level 100, k at level 200) : py_scope.

(** ** [io.BytesIO] *)

Module BytesIO.

Record t : Type := mk { buf : bytes; pos : nat }.

(** [io.BytesIO()] *)
Definition new : t := mk [] 0.

(** [b.seek(p)] with the default [whence]. *)
Definition seek (b : t) (p : nat) : t := mk (buf b) p.

(** [b.write(data)]: nothing happens for empty data; otherwise the bytes
    are stored at the cursor, over whatever was there, the buffer growing
    (zero-filled up to the cursor) as needed; returns [len(data)]. *)
Definition write (b : t) (data : bytes) : Z * t :=
  match data with
  | [] => (0, b)
  | _ =>
      let n := length data in
      (Z.of_nat n,
       mk (take (pos b) (buf b) ++ replicate (pos b - length (buf b)) x00
             ++ data ++ drop (pos b + n) (buf b))
          (pos b + n))
  end.

(** [b.read(size)]: at most [size] bytes from the cursor on, everything
    that is left when [size] is negative. *)
Definition read (b : t) (size : Z) : bytes * t :=
  let left := (length (buf b) - pos b)%nat in
  let n := if (size <? 0) || (Z.of_nat left <? size) then left else Z.to_nat size in
  (take n (drop (pos b) (buf b)), mk (buf b) (pos b + n)).

End BytesIO.

(** ** [smart_open.open]

    The remote side is kept per URL, the URL being the string handed to
    [open]: a file opened with ['wb'] records what is written to it, call
    by call; leaving the [with] block closes it, and what was written, in
    order, is then what a file opened with ['rb'] on the same URL gives.
    Which credentials, host, bucket and key smart_open reads out of a URL
    is its own business and is not modelled: two different URLs may well
    mean one object.  For a URL that cannot be read, [open] raises an
    [OSError]; its text here only stands for smart_open's. *)

Record Writer : Type := mkWriter { w_url : string; w_calls : list bytes }.

Definition open_wb (url : string) : Writer := mkWriter url [].

(** [fout.write(data)] *)
Definition fout_write (fout : Writer) (data : bytes) : Writer :=
  mkWriter (w_url fout) (w_calls fout ++ [data]).

Record World : Type := mkWorld {
  remote : gmap string bytes;
  stdout : list string
}.

(** [fout.__exit__] on the normal path. *)
Definition close_wb (fout : Writer) (printed : list string) : M World unit :=
  fun w => (Ok tt, mkWorld (<[w_url fout := concat (w_calls fout)]> (remote w))
                           (stdout w ++ printed)).

(** [open(url, 'rb')] *)
Definition open_rb (url : string) : M World bytes :=
  fun w =>
    match remote w !! url with
    | Some data => (Ok data, w)
    | None => (Raise (OSError ("unable to access " +:+ url)), w)
    end.

(** ** [boto3]: the S3 resource

    [s3.Bucket(b).objects.all()], [s3.Object(b, k).load()] and
    [s3.Object(b, k).delete()], each of which may raise and may change the
    state of the store. *)

Record ObjectSummary : Type := mkObj {
  key : string;
  last_modified : string;   (* [str(obj.last_modified)] *)
  size : Z
}.

Class S3Resource (St : Type) : Type := {
  objects_all : string -> M St (list ObjectSummary);
  object_load : string -> string -> M St unit;
  object_delete : string -> string -> M St unit
}.

(** ** [rich]: the table that [list] can print *)

Record Table : Type := mkTable {
  title : string;
  columns : list string;
  rows : list (string * string * string)
}.

Class Rich : Type := { filesize_decimal : Z -> string }.

(** ** The codec of [pushpull.helpers]

    [_to_binary_stream] yields the encoded chunks of a document sequence;
    [_from_binary_stream] decodes a byte stream into documents.  Both take
    the protocol and compression tags and the progress flag. *)

Class Codec (Doc DocType : Type) : Type := {
  _to_binary_stream : list Doc -> string -> string -> bool -> list bytes;
  _from_binary_stream : DocType -> bytes -> string -> string -> bool -> Result (list Doc)
}.

Definition dquote : string := String "034"%char EmptyString.

Fixpoint map_result {A B} (f : A -> Result B) (l : list A) : Result (list B) :=
  match l with
  | [] => Ok []
  | a :: l' => rbind (f a) (fun b => rbind (map_result f l') (fun bs => Ok (b :: bs)))
  end.

(** ** The class [PushPullS3] *)

Module PushPullS3.

Section Catalog.
Context {St : Type} `{S3Resource St} `{Rich}.

(** Run an S3 call in the state that also holds the console. *)
Definition on_s3 {A} (m : M St A) : M (St * list Table) A :=
  fun '(st, console) => let '(r, st') := m st in (r, (st', console)).

(** [Console().print(table)] *)
Definition console_print (table : Table) : M (St * list Table) unit :=
  fun '(st, console) => (Ok tt, (st, console ++ [table])).

(** [f.key.split('/')[-1].split('.')[0]] *)
Definition da_name (f : ObjectSummary) : Result string :=
  rbind (Str.index_last (Str.split "/" (-1) (key f)))
        (fun seg => Str.index_0 (Str.split "." (-1) seg)).

Definition list_ (namespace : string) (show_table : bool)
  : M (St * list Table) (list string) :=
  (let* (bucket, namespace) := lift (unpack2 (Str.split "/" 1 namespace)) in
   let* objs := on_s3 (objects_all bucket) in
   let da_files :=
     List.filter
       (fun obj => Str.startswith (key obj) namespace && Str.endswith (key obj) ".da")
       objs in
   let* da_names := lift (map_result da_name da_files) in
   let* _ :=
     if show_table then
       console_print
         (mkTable
            ("You have " +:+ pretty (length da_files)
             +:+ " DocumentArrays in bucket s3://" +:+ bucket
             +:+ " under the namespace " +:+ dquote +:+ namespace +:+ dquote)
            ["Name"; "Last Modified"; "Size"]
            (List.map
               (fun '(da_name, da_file) =>
                  (da_name, last_modified da_file, filesize_decimal (size da_file)))
               (List.combine da_names da_files)))
     else ret tt in
   ret da_names)%py.

Definition delete (name : string) (missing_ok : bool) : M St bool :=
  (let* (bucket, name) := lift (unpack2 (Str.split "/" 1 name)) in
   let* loaded := attempt (object_load bucket (name +:+ ".da")) in
   match loaded with
   | Raise (ClientError code message) =>
       if String.eqb code "404" then
         if missing_ok then ret false
         else raise (ValueError ("Object " +:+ name +:+ " does not exist"))
       else raise (ClientError code message)
   | Raise e => raise e
   | Ok _ =>
       let* _ := object_delete bucket (name +:+ ".da") in
       ret true
   end)%py.

End Catalog.

(** The locals of [push_stream]'s loop; [printed] collects what
    [print] has put out. *)
Record Locals : Type := mkLocals {
  _buffer_size : Z;
  _buffer : BytesIO.t;
  fout : Writer;
  printed : list string
}.

Definition _buffer_cap : Z := 4 * 1024 * 1024 - 1024.

(** One turn of the [while] loop in which [next] returned [chunk]. *)
Definition push_iter (cap : Z) (l : Locals) (chunk : bytes) : Locals :=
  let '(n, b) := BytesIO.write (_buffer l) chunk in
  let sz := _buffer_size l + n in
  if sz >=? cap then
    let out := printed l ++ ["flushing"] in
    let b := BytesIO.seek b 0 in
    let '(data, b) := BytesIO.read b sz in
    let f := fout_write (fout l) data in
    let b := BytesIO.seek b 0 in
    mkLocals 0 b f out
  else mkLocals sz b (fout l) (printed l).

(** The turn in which [next] raised [StopIteration]. *)
Definition push_stop (l : Locals) : Locals :=
  let b := BytesIO.seek (_buffer l) 0 in
  let '(data, b) := BytesIO.read b (_buffer_size l) in
  let f := fout_write (fout l) data in
  let b := BytesIO.seek b 0 in
  mkLocals 0 b f (printed l).

(** The locals when the loop is entered, [fout] being the file just opened. *)
Definition push_start (url : string) : Locals :=
  mkLocals 0 BytesIO.new (open_wb url) [].

Fixpoint push_loop (cap : Z) (binary_stream : list bytes) (l : Locals) : Locals :=
  match binary_stream with
  | chunk :: binary_stream' => push_loop cap binary_stream' (push_iter cap l chunk)
  | [] => push_stop l
  end.

Section Transfer.
Context {Doc DocType : Type} `{Codec Doc DocType}.

Definition push_stream (docs : list Doc) (name : string)
    (public show_progress : bool) (branding : option (gmap string string))
  : M World (gmap string string) :=
  (let* (bucket, name) := lift (unpack2 (Str.split "/" 1 name)) in
   let binary_stream := _to_binary_stream docs "protobuf" "gzip" show_progress in
   let l :=
     push_loop _buffer_cap binary_stream
       (push_start ("s3://" +:+ bucket +:+ "/" +:+ name +:+ ".da")) in
   let* _ := close_wb (fout l) (printed l) in
   ret ∅)%py.

Definition push (da : list Doc) (name : string)
    (public show_progress : bool) (branding : option (gmap string string))
  : M World (gmap string string) :=
  push_stream da name public show_progress branding.

Definition pull_stream (cls : DocType) (name : string)
    (show_progress local_cache : bool) : M World (list Doc) :=
  (let* (bucket, name) := lift (unpack2 (Str.split "/" 1 name)) in
   let* stream := open_rb ("s3://" +:+ bucket +:+ "/" +:+ name +:+ ".da") in
   lift (_from_binary_stream cls stream "protobuf" "gzip" show_progress))%py.

Definition pull (cls : DocType) (name : string)
    (show_progress local_cache : bool) : M World (list Doc) :=
  pull_stream cls name show_progress local_cache.

End Transfer.

End PushPullS3.

(** ** Concrete collaborators

    An in-memory S3 (the objects of every bucket, in listing order), an S3
    that fails, a recording S3 that only logs the calls it receives, a plain
    [rich] and a small framing codec.  They instantiate
    the interfaces above in the examples. *)

Record MemS3 : Type := mkMem { mem_objects : list (string * ObjectSummary) }.

Definition mem_has (bucket k : string) (p : string * ObjectSummary) : bool :=
  String.eqb (fst p) bucket && String.eqb (key (snd p)) k.

#[export] Instance mem_s3 : S3Resource MemS3 := {
  objects_all bucket := fun st =>
    (Ok (List.map snd (List.filter (fun p => String.eqb (fst p) bucket) (mem_objects st))), st);
  object_load bucket k := fun st =>
    if List.existsb (mem_has bucket k) (mem_objects st) then (Ok tt, st)
    else (Raise (ClientError "404" "Not Found"), st);
  object_delete bucket k := fun st =>
    (Ok tt, mkMem (List.filter (fun p => negb (mem_has bucket k p)) (mem_objects st)))
}.

(** An S3 that answers every call with the same error. *)
Record FaultyS3 : Type := mkFaulty { fault : exn }.

#[export] Instance faulty_s3 : S3Resource FaultyS3 := {
  objects_all bucket := fun st => (Raise (fault st), st);
  object_load bucket k := fun st => (Raise (fault st), st);
  object_delete bucket k := fun st => (Raise (fault st), st)
}.

(** An S3 on which every object can be seen and none can be deleted. *)
Record ReadOnlyS3 : Type := mkReadOnly { ro_objects : list ObjectSummary }.

#[export] Instance read_only_s3 : S3Resource ReadOnlyS3 := {
  objects_all bucket := fun st => (Ok (ro_objects st), st);
  object_load bucket k := fun st => (Ok tt, st);
  object_delete bucket k := fun st => (Raise (ClientError "AccessDenied" "Access Denied"), st)
}.

Inductive Call : Type :=
| CallObjectsAll (bucket : string)
| CallLoad (bucket k : string)
| CallDelete (bucket k : string).

#[export] Instance rec_s3 : S3Resource (list Call) := {
  objects_all bucket := fun log => (Ok [], log ++ [CallObjectsAll bucket]);
  object_load bucket k := fun log => (Ok tt, log ++ [CallLoad bucket k]);
  object_delete bucket k := fun log => (Ok tt, log ++ [CallDelete bucket k])
}.

#[export] Instance plain_rich : Rich := {
  filesize_decimal n := pretty n +:+ " bytes"
}.

(** One header chunk, then one chunk per document (a document is a byte);
    decoding insists on the tags the stream was written with. *)
#[export] Instance frame_codec : Codec byte unit := {
  _to_binary_stream docs protocol compress _ := [x01] :: List.map (fun d => [d]) docs;
  _from_binary_stream _ stream protocol compress _ :=
    if String.eqb protocol "protobuf" && String.eqb compress "gzip" then
      match stream with
      | x01 :: docs => Ok docs
      | _ => Raise (ValueError "bad stream header")
      end
    else Raise (ValueError "unsupported protocol or compression")
}.

(** Whether a character occurs in a string; a path must have the bucket
    separator. *)
Fixpoint has_char (sep : ascii) (s : string) : bool :=
  match s with
  | EmptyString => false
  | String c s' => Ascii.eqb c sep || has_char sep s'
  end.

Abbreviation has_slash := (has_char "/").

(** ** What the specification says a listed name is

    The key without the ['.da'] extension and without any path prefix. *)

Definition strip_extension (k : string) : string :=
  substring 0 (String.length k - String.length ".da") k.

Fixpoint strip_path_prefix (k : string) : string :=
  match k with
  | EmptyString => EmptyString
  | String c k' =>
      if has_slash k' then strip_path_prefix k'
      else if Ascii.eqb c "/" then k' else k
  end.

Definition spec_da_name (f : ObjectSummary) : string :=
  strip_extension (strip_path_prefix (key f)).

(** InvalidName: the path lacks the bucket separator.  In the code this is
    the [ValueError] of the failed two-target unpacking. *)
Definition InvalidName : exn :=
  ValueError "not enough values to unpack (expected 2, got 1)".

Definition object_url (bucket k : string) : string :=
  "s3://" +:+ bucket +:+ "/" +:+ k +:+ ".da".

(** ** The chunk buffer seen from outside *)

Definition total (chunks : list bytes) : Z := Z.of_nat (length (concat chunks)).

(** [buffered l cur]: the chunks [cur], taken since the last flush, are
    what the buffer holds below its cursor, and the counter is their size. *)
Definition buffered (l : PushPullS3.Locals) (cur : list bytes) : Prop :=
  PushPullS3._buffer_size l = total cur /\
  BytesIO.pos (PushPullS3._buffer l) = length (concat cur) /\
  take (length (concat cur)) (BytesIO.buf (PushPullS3._buffer l)) = concat cur.

(** A run of chunks that makes one block: short of the capacity before its
    last chunk, at or over the capacity with it. *)
Definition fills (cap : Z) (g : list bytes) : Prop :=
  exists init lst, g = init ++ [lst] /\ total init < cap <= total g.

(** What [push_stream] hands to [fout.write], call by call. *)
Definition write_calls (cap : Z) (url : string) (stream : list bytes) : list bytes :=
  w_calls (PushPullS3.fout (PushPullS3.push_loop cap stream (PushPullS3.push_start url))).

(** The reading under which an empty final block is not written at all:
    whenever nothing is left once the last full block has gone out, the
    write calls are the full blocks and nothing more. *)
Definition skips_empty_final_block (cap : Z) (url : string) (stream : list bytes) : Prop :=
  forall (groups : list (list bytes)) (rest : list bytes),
    stream = concat groups ++ rest ->
    Forall (fills cap) groups ->
    total rest < cap ->
    concat rest = [] ->
    write_calls cap url stream = List.map (@concat byte) groups.

(** * Properties *)

(** ** The model at work *)

Example split_first_slash_only :
  Str.split "/" 1 "mybucket/foo/bar" = ["mybucket"; "foo/bar"].
Proof. reflexivity. Qed.

Example split_every_slash :
  Str.split "/" (-1) "mybucket/foo/bar" = ["mybucket"; "foo"; "bar"].
Proof. reflexivity. Qed.

Example split_nothing_to_split : Str.split "/" 1 "nobucket" = ["nobucket"].
Proof. reflexivity. Qed.

Example split_leading_slash : Str.split "/" 1 "/foo" = [""; "foo"].
Proof. reflexivity. Qed.

Example endswith_extension :
  Str.endswith "ns/a.da" ".da" = true /\ Str.endswith "da" ".da" = false.
Proof. split; reflexivity. Qed.

(** Writing at the start of a used buffer keeps the old bytes behind the
    new ones; only [read(_buffer_size)] keeps them out of the next block. *)
Example bytesio_keeps_stale_bytes :
  BytesIO.buf
    (snd (BytesIO.write
            (BytesIO.seek (snd (BytesIO.write BytesIO.new [x01; x02; x03])) 0)
            [x0a]))
  = [x0a; x02; x03].
Proof. reflexivity. Qed.

(** With a capacity of four bytes: two blocks go out as the capacity is
    reached, the last chunk goes out when the stream ends. *)
Example blocks_at_capacity_four :
  write_calls 4 "s3://bucket/ns/da1.da"
    [[x01; x02]; [x03]; [x04; x05; x06]; [x07; x08; x09; x0a; x0b]; [x0c]]
  = [[x01; x02; x03; x04; x05; x06]; [x07; x08; x09; x0a; x0b]; [x0c]].
Proof. reflexivity. Qed.

Example delete_calls_in_order :
  PushPullS3.delete "bucket/ns/a" false ([] : list Call)
  = (Ok true, [CallLoad "bucket" "ns/a.da"; CallDelete "bucket" "ns/a.da"]).
Proof. reflexivity. Qed.

Import PushPullS3.

(** ** Splitting a path *)

Lemma split_without_sep (sep : ascii) (s : string) (m : Z) :
  has_char sep s = false -> Str.split sep m s = [s].
Proof.
  revert m.
  induction s as [|c s IH]; intros m Hs; cbn [has_char Str.split] in *.
  - reflexivity.
  - apply orb_false_elim in Hs as [Hc Hs].
    rewrite Hc, (IH m Hs).
    destruct (m =? 0); reflexivity.
Qed.

Lemma split_at_first_sep (sep : ascii) (b k : string) (m : Z) :
  has_char sep b = false -> m <> 0 ->
  Str.split sep m (b +:+ String sep k) = b :: Str.split sep (m - 1) k.
Proof.
  intros Hb Hm.
  apply Z.eqb_neq in Hm.
  induction b as [|c b IH]; cbn [has_char] in *.
  - change (EmptyString +:+ String sep k) with (String sep k).
    cbn [Str.split]. rewrite Hm, Ascii.eqb_refl. reflexivity.
  - apply orb_false_elim in Hb as [Hc Hb].
    change (String c b +:+ String sep k) with (String c (b +:+ String sep k)).
    cbn [Str.split]. rewrite Hm, Hc, (IH Hb). reflexivity.
Qed.

Lemma split_exhausted (sep : ascii) (k : string) : Str.split sep 0 k = [k].
Proof. destruct k; reflexivity. Qed.

Lemma first_slash_exists (s : string) :
  has_slash s = true ->
  exists b k, s = b +:+ "/" +:+ k /\ has_slash b = false.
Proof.
  induction s as [|c s IH]; cbn [has_char]; intros Hs.
  - discriminate.
  - destruct (Ascii.eqb c "/") eqn:Hc.
    + apply Ascii.eqb_eq in Hc. subst c. exists EmptyString, s. split; reflexivity.
    + cbn [orb] in Hs. destruct (IH Hs) as (b & k & -> & Hb).
      exists (String c b), k. split; [reflexivity|].
      cbn [has_char]. rewrite Hc. exact Hb.
Qed.

Lemma unpack_split_slash (b k : string) :
  has_slash b = false ->
  unpack2 (Str.split "/" 1 (b +:+ "/" +:+ k)) = Ok (b, k).
Proof.
  intros Hb. change (b +:+ "/" +:+ k) with (b +:+ String "/" k).
  rewrite split_at_first_sep by (auto; lia).
  change (1 - 1) with 0. rewrite split_exhausted. reflexivity.
Qed.

Lemma unpack_split_no_slash (s : string) :
  has_slash s = false -> unpack2 (Str.split "/" 1 s) = Raise InvalidName.
Proof. intros Hs. rewrite split_without_sep by assumption. reflexivity. Qed.

(** Python never hands back an empty list from [split]. *)
Lemma split_not_nil (sep : ascii) (m : Z) (s : string) : Str.split sep m s <> [].
Proof.
  revert m. induction s as [|c s IH]; intros m; simpl; [discriminate|].
  destruct (m =? 0); [discriminate|].
  destruct (Ascii.eqb c sep); [discriminate|].
  destruct (Str.split sep m s); discriminate.
Qed.

(** ** [io.BytesIO]: writing at the cursor, reading back from the start *)

Lemma take_prefix_fits (pre buf : bytes) :
  take (length pre) buf = pre -> (length pre <= length buf)%nat.
Proof.
  intros Ht. apply (f_equal length) in Ht.
  rewrite length_take in Ht. lia.
Qed.

Lemma bytesio_write_appends (b : BytesIO.t) (pre data : bytes) :
  BytesIO.pos b = length pre ->
  take (length pre) (BytesIO.buf b) = pre ->
  fst (BytesIO.write b data) = Z.of_nat (length data) /\
  BytesIO.pos (snd (BytesIO.write b data)) = length (pre ++ data) /\
  take (length (pre ++ data)) (BytesIO.buf (snd (BytesIO.write b data))) = pre ++ data.
Proof.
  intros Hpos Hpre. pose proof (take_prefix_fits _ _ Hpre) as Hfit.
  destruct data as [|d data].
  - cbn [BytesIO.write fst snd]. rewrite app_nil_r. auto.
  - cbn [BytesIO.write fst snd BytesIO.pos BytesIO.buf].
    rewrite Hpos, Hpre.
    replace (length pre - length (BytesIO.buf b))%nat with 0%nat by lia.
    cbn [replicate]. rewrite app_nil_l, length_app.
    split; [reflexivity|]. split; [reflexivity|].
    rewrite app_assoc. apply take_app_length'. now rewrite length_app.
Qed.

Lemma bytesio_read_back (b : BytesIO.t) (x : bytes) :
  take (length x) (BytesIO.buf b) = x ->
  fst (BytesIO.read (BytesIO.seek b 0) (Z.of_nat (length x))) = x.
Proof.
  intros Hx. pose proof (take_prefix_fits _ _ Hx) as Hfit.
  unfold BytesIO.read, BytesIO.seek. cbn [BytesIO.pos BytesIO.buf fst].
  rewrite Nat.sub_0_r, drop_0.
  replace (Z.of_nat (length x) <? 0) with false by (symmetry; apply Z.ltb_ge; lia).
  replace (Z.of_nat (length (BytesIO.buf b)) <? Z.of_nat (length x)) with false
    by (symmetry; apply Z.ltb_ge; lia).
  cbn [orb]. rewrite Nat2Z.id. exact Hx.
Qed.

(** ** The loop of [push_stream] *)

Lemma total_app (xs ys : list bytes) : total (xs ++ ys) = total xs + total ys.
Proof. unfold total. rewrite concat_app, length_app. lia. Qed.

Lemma total_single (c : bytes) : total [c] = Z.of_nat (length c).
Proof. unfold total. cbn [concat]. now rewrite app_nil_r. Qed.

Lemma total_nonneg (xs : list bytes) : 0 <= total xs.
Proof. unfold total. lia. Qed.

Lemma buffered_start (url : string) : buffered (push_start url) [].
Proof. repeat split. Qed.

(** The capacity is reached: the whole buffer goes out as one block and the
    buffer starts over. *)
Lemma push_iter_flush (cap : Z) (l : Locals) (cur : list bytes) (chunk : bytes) :
  buffered l cur ->
  cap <= total (cur ++ [chunk]) ->
  fout (push_iter cap l chunk) = fout_write (fout l) (concat (cur ++ [chunk])) /\
  printed (push_iter cap l chunk) = printed l ++ ["flushing"] /\
  buffered (push_iter cap l chunk) [].
Proof.
  intros (Hsz & Hpos & Hbuf) Hcap.
  destruct (bytesio_write_appends (_buffer l) (concat cur) chunk Hpos Hbuf)
    as (Hn & Hpos' & Hbuf').
  unfold push_iter.
  destruct (BytesIO.write (_buffer l) chunk) as [n b] eqn:Hw.
  cbn [fst snd] in Hn, Hpos', Hbuf'.
  assert (Hsum : _buffer_size l + n = Z.of_nat (length (concat cur ++ chunk))).
  { rewrite Hsz, Hn, length_app. unfold total. lia. }
  assert (Hcat : concat (cur ++ [chunk]) = concat cur ++ chunk).
  { rewrite concat_app. cbn [concat]. now rewrite app_nil_r. }
  replace (_buffer_size l + n >=? cap) with true.
  2:{ symmetry. apply Z.geb_le. rewrite Hsum, <- Hcat. exact Hcap. }
  destruct (BytesIO.read (BytesIO.seek b 0) (_buffer_size l + n)) as [data b'] eqn:Hr.
  cbn [fout printed].
  assert (Hdata : data = concat cur ++ chunk).
  { pose proof (bytesio_read_back b (concat cur ++ chunk) Hbuf') as Hrb.
    rewrite <- Hsum, Hr in Hrb. exact Hrb. }
  rewrite Hdata, Hcat. repeat split.
Qed.

(** The capacity is not reached: nothing goes out. *)
Lemma push_iter_keep (cap : Z) (l : Locals) (cur : list bytes) (chunk : bytes) :
  buffered l cur ->
  total (cur ++ [chunk]) < cap ->
  fout (push_iter cap l chunk) = fout l /\
  printed (push_iter cap l chunk) = printed l /\
  buffered (push_iter cap l chunk) (cur ++ [chunk]).
Proof.
  intros (Hsz & Hpos & Hbuf) Hcap.
  destruct (bytesio_write_appends (_buffer l) (concat cur) chunk Hpos Hbuf)
    as (Hn & Hpos' & Hbuf').
  unfold push_iter.
  destruct (BytesIO.write (_buffer l) chunk) as [n b] eqn:Hw.
  cbn [fst snd] in Hn, Hpos', Hbuf'.
  assert (Hcat : concat (cur ++ [chunk]) = concat cur ++ chunk).
  { rewrite concat_app. cbn [concat]. now rewrite app_nil_r. }
  assert (Hsum : _buffer_size l + n = total (cur ++ [chunk])).
  { rewrite Hsz, Hn, total_app, total_single. reflexivity. }
  replace (_buffer_size l + n >=? cap) with false.
  2:{ symmetry. rewrite Z.geb_leb. apply Z.leb_gt. rewrite Hsum. exact Hcap. }
  cbn [fout printed]. repeat split; cbn [_buffer_size _buffer].
  - exact Hsum.
  - rewrite Hcat. exact Hpos'.
  - rewrite Hcat. exact Hbuf'.
Qed.

(** [StopIteration]: what is left goes out, empty or not. *)
Lemma push_stop_writes (l : Locals) (cur : list bytes) :
  buffered l cur ->
  fout (push_stop l) = fout_write (fout l) (concat cur) /\
  printed (push_stop l) = printed l.
Proof.
  intros (Hsz & Hpos & Hbuf). unfold push_stop.
  destruct (BytesIO.read (BytesIO.seek (_buffer l) 0) (_buffer_size l)) as [data b'] eqn:Hr.
  cbn [fout printed]. split; [|reflexivity].
  pose proof (bytesio_read_back (_buffer l) (concat cur) Hbuf) as Hrb.
  unfold total in Hsz. rewrite <- Hsz, Hr in Hrb. cbn [fst] in Hrb. now subst data.
Qed.

Lemma concat_snoc (cur : list bytes) (chunk : bytes) :
  concat (cur ++ [chunk]) = concat cur ++ chunk.
Proof. rewrite concat_app. cbn [concat]. now rewrite app_nil_r. Qed.

(** Whatever the capacity, the bytes written are the bytes taken in. *)
Lemma push_loop_bytes (cap : Z) (stream : list bytes) :
  forall (l : Locals) (cur : list bytes),
    buffered l cur ->
    concat (w_calls (fout (push_loop cap stream l)))
    = concat (w_calls (fout l)) ++ concat cur ++ concat stream.
Proof.
  induction stream as [|chunk stream IH]; intros l cur Hb; cbn [push_loop].
  - destruct (push_stop_writes l cur Hb) as [-> _].
    cbn [fout_write w_calls concat]. now rewrite concat_snoc, app_nil_r.
  - destruct (Z_lt_le_dec (total (cur ++ [chunk])) cap) as [Hlt|Hge].
    + destruct (push_iter_keep cap l cur chunk Hb Hlt) as (Hf & _ & Hb').
      rewrite (IH _ _ Hb'), Hf, concat_snoc. cbn [concat].
      now rewrite <- !app_assoc.
    + destruct (push_iter_flush cap l cur chunk Hb Hge) as (Hf & _ & Hb').
      rewrite (IH _ _ Hb'), Hf. cbn [fout_write w_calls concat].
      rewrite !concat_snoc. now rewrite <- !app_assoc.
Qed.

(** With a positive capacity the chunks fall into runs, one per block, and
    a remainder that goes out when the stream ends. *)
Lemma push_loop_groups (cap : Z) (stream : list bytes) :
  forall (l : Locals) (cur : list bytes),
    buffered l cur -> total cur < cap ->
    exists (groups : list (list bytes)) (rest : list bytes),
      cur ++ stream = concat groups ++ rest /\
      Forall (fills cap) groups /\
      total rest < cap /\
      w_calls (fout (push_loop cap stream l))
      = w_calls (fout l) ++ List.map (@concat byte) groups ++ [concat rest] /\
      printed (push_loop cap stream l)
      = printed l ++ replicate (length groups) "flushing".
Proof.
  induction stream as [|chunk stream IH]; intros l cur Hb Hcur; cbn [push_loop].
  - exists [], cur. destruct (push_stop_writes l cur Hb) as [-> ->].
    cbn [concat List.map length replicate fout_write w_calls].
    rewrite !app_nil_r. repeat split; auto.
  - destruct (Z_lt_le_dec (total (cur ++ [chunk])) cap) as [Hlt|Hge].
    + destruct (push_iter_keep cap l cur chunk Hb Hlt) as (Hf & Hp & Hb').
      destruct (IH _ _ Hb' Hlt) as (groups & rest & Heq & Hfill & Hrest & Hw & Hpr).
      exists groups, rest. rewrite <- Heq, Hw, Hpr, Hf, Hp.
      rewrite <- app_assoc. repeat split; auto.
    + destruct (push_iter_flush cap l cur chunk Hb Hge) as (Hf & Hp & Hb').
      assert (H0 : total [] < cap) by (pose proof (total_nonneg cur); unfold total at 1; cbn; lia).
      destruct (IH _ _ Hb' H0) as (groups & rest & Heq & Hfill & Hrest & Hw & Hpr).
      exists ((cur ++ [chunk]) :: groups), rest.
      cbn [app] in Heq. repeat split; auto.
      * cbn [concat]. rewrite <- !app_assoc. cbn [app]. now rewrite <- Heq.
      * constructor; [|exact Hfill]. exists cur, chunk. repeat split; auto.
      * rewrite Hw, Hf. cbn [fout_write w_calls List.map].
        now rewrite <- !app_assoc.
      * rewrite Hpr, Hp. cbn [length replicate]. now rewrite <- !app_assoc.
Qed.

Lemma push_iter_url (cap : Z) (l : Locals) (chunk : bytes) :
  w_url (fout (push_iter cap l chunk)) = w_url (fout l).
Proof.
  unfold push_iter.
  destruct (BytesIO.write (_buffer l) chunk) as [n b].
  destruct (_buffer_size l + n >=? cap); [|reflexivity].
  destruct (BytesIO.read (BytesIO.seek b 0) (_buffer_size l + n)). reflexivity.
Qed.

Lemma push_loop_url (cap : Z) (stream : list bytes) (l : Locals) :
  w_url (fout (push_loop cap stream l)) = w_url (fout l).
Proof.
  revert l. induction stream as [|chunk stream IH]; intros l; cbn [push_loop].
  - unfold push_stop.
    destruct (BytesIO.read (BytesIO.seek (_buffer l) 0) (_buffer_size l)). reflexivity.
  - rewrite IH. apply push_iter_url.
Qed.

Lemma buffer_cap_positive : 0 < _buffer_cap.
Proof. reflexivity. Qed.

(** ** The entry points, once the path is split *)

Section Entry.
Context {St : Type} `{S3Resource St} `{Rich}.
Context {Doc DocType : Type} `{Codec Doc DocType}.

Lemma list_unsplit (path : string) (show_table : bool) (e : exn) (s : St * list Table) :
  unpack2 (Str.split "/" 1 path) = Raise e ->
  list_ path show_table s = (Raise e, s).
Proof. intros Hs. unfold list_, bind, lift. now rewrite Hs. Qed.

Lemma delete_unsplit (path : string) (missing_ok : bool) (e : exn) (st : St) :
  unpack2 (Str.split "/" 1 path) = Raise e ->
  delete path missing_ok st = (Raise e, st).
Proof. intros Hs. unfold delete, bind, lift. now rewrite Hs. Qed.

Lemma push_stream_unsplit (docs : list Doc) (path : string) (public show_progress : bool)
    (branding : option (gmap string string)) (e : exn) (w : World) :
  unpack2 (Str.split "/" 1 path) = Raise e ->
  push_stream docs path public show_progress branding w = (Raise e, w).
Proof. intros Hs. unfold push_stream, bind, lift. now rewrite Hs. Qed.

Lemma pull_stream_unsplit (cls : DocType) (path : string) (show_progress local_cache : bool)
    (e : exn) (w : World) :
  unpack2 (Str.split "/" 1 path) = Raise e ->
  pull_stream cls path show_progress local_cache w = (Raise e, w).
Proof. intros Hs. unfold pull_stream, bind, lift. now rewrite Hs. Qed.

(** [push_stream] leaves, under the URL made of bucket and key, the chunks
    of the encoded stream end to end. *)
Lemma push_stream_split (docs : list Doc) (path bucket k : string)
    (public show_progress : bool) (branding : option (gmap string string)) (w : World) :
  unpack2 (Str.split "/" 1 path) = Ok (bucket, k) ->
  exists out,
    push_stream docs path public show_progress branding w
    = (Ok ∅,
       mkWorld (<[object_url bucket k :=
                    concat (_to_binary_stream docs "protobuf" "gzip" show_progress)]>
                  (remote w))
               (stdout w ++ out)).
Proof.
  intros Hs. unfold push_stream, bind, lift. rewrite Hs.
  eexists. unfold close_wb, ret. cbn beta iota.
  rewrite push_loop_url.
  rewrite (push_loop_bytes _ _ _ [] (buffered_start _)).
  cbn [push_start fout open_wb w_url w_calls concat app]. reflexivity.
Qed.

Lemma pull_stream_split (cls : DocType) (path bucket k : string)
    (show_progress local_cache : bool) (w : World) :
  unpack2 (Str.split "/" 1 path) = Ok (bucket, k) ->
  pull_stream cls path show_progress local_cache w
  = (match remote w !! object_url bucket k with
     | Some data => _from_binary_stream cls data "protobuf" "gzip" show_progress
     | None => Raise (OSError ("unable to access " +:+ object_url bucket k))
     end, w).
Proof.
  intros Hs. unfold pull_stream, bind, lift, open_rb. rewrite Hs.
  fold (object_url bucket k).
  destruct (remote w !! object_url bucket k); reflexivity.
Qed.

Lemma delete_split (path bucket k : string) (missing_ok : bool) (st : St) :
  unpack2 (Str.split "/" 1 path) = Ok (bucket, k) ->
  delete path missing_ok st
  = match object_load bucket (k +:+ ".da") st with
    | (Raise (ClientError code message), st1) =>
        if String.eqb code "404" then
          if missing_ok then (Ok false, st1)
          else (Raise (ValueError ("Object " +:+ k +:+ " does not exist")), st1)
        else (Raise (ClientError code message), st1)
    | (Raise e, st1) => (Raise e, st1)
    | (Ok _, st1) =>
        match object_delete bucket (k +:+ ".da") st1 with
        | (Ok _, st2) => (Ok true, st2)
        | (Raise e, st2) => (Raise e, st2)
        end
    end.
Proof.
  intros Hs. unfold delete, bind, lift, attempt. rewrite Hs.
  destruct (object_load bucket (k +:+ ".da") st) as [[[]|e] st1].
  - reflexivity.
  - destruct e as [msg|code message|msg|c msg]; try reflexivity.
    destruct (String.eqb code "404"); [destruct missing_ok|]; reflexivity.
Qed.

Lemma list_split (path bucket k : string) (st : St) (console : list Table) :
  unpack2 (Str.split "/" 1 path) = Ok (bucket, k) ->
  list_ path false (st, console)
  = match objects_all bucket st with
    | (Ok objs, st1) =>
        (map_result da_name
           (List.filter
              (fun obj => Str.startswith (key obj) k && Str.endswith (key obj) ".da")
              objs),
         (st1, console))
    | (Raise e, st1) => (Raise e, (st1, console))
    end.
Proof.
  intros Hs. unfold list_, bind, lift, on_s3, ret. rewrite Hs.
  destruct (objects_all bucket st) as [[objs|e] st1]; [|reflexivity].
  destruct (map_result da_name _); reflexivity.
Qed.

End Entry.

(** ** Name parsing *)

(** C5. A path that has a '/' is split at its first '/' into bucket and
    object key: written as [bucket/key] with no '/' in [bucket], it unpacks
    to [(bucket, key)], [push_stream] stores under the URL of that bucket
    and key and [pull_stream] reads from it.  A path without '/' makes
    [list], [delete], [push_stream] and [pull_stream] fail with
    InvalidName, before anything is touched.  In particular
    "mybucket/foo/bar" gives bucket "mybucket" and key "foo/bar". *)
Theorem name_parsing {St : Type} `{S3Resource St} `{Rich}
    {Doc DocType : Type} `{Codec Doc DocType}
    (path : string) :
  (has_slash path = true ->
   exists bucket k,
     path = bucket +:+ "/" +:+ k /\ has_slash bucket = false /\
     unpack2 (Str.split "/" 1 path) = Ok (bucket, k) /\
     (forall (docs : list Doc) public show_progress branding w,
         remote (snd (push_stream docs path public show_progress branding w))
         = <[object_url bucket k :=
               concat (_to_binary_stream docs "protobuf" "gzip" show_progress)]> (remote w)) /\
     (forall (cls : DocType) show_progress local_cache w data,
         remote w !! object_url bucket k = Some data ->
         pull_stream cls path show_progress local_cache w
         = (_from_binary_stream cls data "protobuf" "gzip" show_progress, w))) /\
  (has_slash path = false ->
   unpack2 (Str.split "/" 1 path) = Raise InvalidName /\
   (forall show_table (s : St * list Table),
       list_ path show_table s = (Raise InvalidName, s)) /\
   (forall missing_ok (st : St), delete path missing_ok st = (Raise InvalidName, st)) /\
   (forall (docs : list Doc) public show_progress branding w,
       push_stream docs path public show_progress branding w = (Raise InvalidName, w)) /\
   (forall (cls : DocType) show_progress local_cache w,
       pull_stream cls path show_progress local_cache w = (Raise InvalidName, w))) /\
  unpack2 (Str.split "/" 1 "mybucket/foo/bar") = Ok ("mybucket", "foo/bar").
Proof.
  split; [|split; [|reflexivity]].
  - intros Hs. destruct (first_slash_exists path Hs) as (bucket & k & -> & Hb).
    pose proof (unpack_split_slash bucket k Hb) as Hu.
    exists bucket, k. repeat split; auto.
    + intros docs public show_progress branding w.
      destruct (push_stream_split docs _ bucket k public show_progress branding w Hu)
        as [out ->]. reflexivity.
    + intros cls show_progress local_cache w data Hd.
      rewrite (pull_stream_split cls _ bucket k show_progress local_cache w Hu).
      now rewrite Hd.
  - intros Hs. pose proof (unpack_split_no_slash path Hs) as Hu.
    repeat split; intros.
    + exact Hu.
    + now apply list_unsplit.
    + now apply delete_unsplit.
    + now apply push_stream_unsplit.
    + now apply pull_stream_unsplit.
Qed.

Lemma name_parsing_witness :
  (exists bucket k,
      "mybucket/foo/bar" = bucket +:+ "/" +:+ k /\ has_slash bucket = false /\
      unpack2 (Str.split "/" 1 "mybucket/foo/bar") = Ok (bucket, k)) /\
  delete (St := MemS3) "nobucket" true (mkMem []) = (Raise InvalidName, mkMem []).
Proof.
  split.
  - destruct (name_parsing (St := MemS3) (Doc := byte) (DocType := unit) "mybucket/foo/bar")
      as [Hyes _].
    destruct (Hyes eq_refl) as (bucket & k & Hp & Hb & Hu & _).
    exists bucket, k. auto.
  - destruct (name_parsing (St := MemS3) (Doc := byte) (DocType := unit) "nobucket")
      as (_ & Hno & _).
    destruct (Hno eq_refl) as (_ & _ & Hd & _). apply Hd.
Defined.

(** ** One split, two ways to the store *)

Lemma unpack_split_inv (path bucket k : string) :
  unpack2 (Str.split "/" 1 path) = Ok (bucket, k) -> path = bucket +:+ "/" +:+ k.
Proof.
  intros Hu. destruct (has_slash path) eqn:Hs.
  - destruct (first_slash_exists path Hs) as (b & x & -> & Hb).
    rewrite (unpack_split_slash b x Hb) in Hu. now injection Hu as -> ->.
  - rewrite (unpack_split_no_slash path Hs) in Hu. discriminate.
Qed.

Lemma append_assoc (a b c : string) : (a +:+ b) +:+ c = a +:+ b +:+ c.
Proof.
  induction a as [|x a IH]; [reflexivity|].
  change ((String x a +:+ b) +:+ c) with (String x ((a +:+ b) +:+ c)).
  change (String x a +:+ b +:+ c) with (String x (a +:+ b +:+ c)).
  now rewrite IH.
Qed.

(** The four functions split alike, and there the likeness ends: [list]
    and [delete] hand the bucket (and the key) of the split to boto3 as
    they are, while [push_stream] and [pull_stream] put bucket and key back
    together, so that the URL they open is the whole path again, between
    "s3://" and ".da". *)
Lemma split_lines_agree {St : Type} `{S3Resource St} `{Rich}
    {Doc DocType : Type} `{Codec Doc DocType}
    (path : string) (show_table missing_ok public show_progress local_cache : bool)
    (branding : option (gmap string string)) (docs : list Doc) (cls : DocType)
    (st : St) (console : list Table) (w : World) :
  match unpack2 (Str.split "/" 1 path) with
  | Ok (bucket, k) =>
      fst (snd (list_ path show_table (([] : list Call), console))) = [CallObjectsAll bucket] /\
      snd (delete path missing_ok ([] : list Call))
      = [CallLoad bucket (k +:+ ".da"); CallDelete bucket (k +:+ ".da")] /\
      object_url bucket k = "s3://" +:+ path +:+ ".da" /\
      remote (snd (push_stream docs path public show_progress branding w))
      = <["s3://" +:+ path +:+ ".da" :=
            concat (_to_binary_stream docs "protobuf" "gzip" show_progress)]> (remote w) /\
      (forall data,
          remote w !! ("s3://" +:+ path +:+ ".da") = Some data ->
          pull_stream cls path show_progress local_cache w
          = (_from_binary_stream cls data "protobuf" "gzip" show_progress, w))
  | Raise e =>
      list_ path show_table (st, console) = (Raise e, (st, console)) /\
      delete path missing_ok st = (Raise e, st) /\
      push_stream docs path public show_progress branding w = (Raise e, w) /\
      pull_stream cls path show_progress local_cache w = (Raise e, w)
  end.
Proof.
  destruct (unpack2 (Str.split "/" 1 path)) as [[bucket k]|e] eqn:Hu.
  - assert (Hurl : object_url bucket k = "s3://" +:+ path +:+ ".da").
    { rewrite (unpack_split_inv path bucket k Hu). unfold object_url.
      now rewrite !append_assoc. }
    rewrite <- Hurl. repeat split.
    + unfold list_, bind, lift, on_s3. rewrite Hu. cbn.
      destruct show_table; reflexivity.
    + rewrite (delete_split path bucket k missing_ok _ Hu). reflexivity.
    + destruct (push_stream_split docs path bucket k public show_progress branding w Hu)
        as [out ->]. reflexivity.
    + intros data Hd.
      rewrite (pull_stream_split cls path bucket k show_progress local_cache w Hu).
      now rewrite Hd.
  - repeat split.
    + now apply list_unsplit.
    + now apply delete_unsplit.
    + now apply push_stream_unsplit.
    + now apply pull_stream_unsplit.
Qed.


(** ** The chunk buffer *)

(** C2. Whatever the chunks and whatever the capacity, the blocks handed
    to [fout.write], end to end in the order of the calls, are the chunks
    end to end in the order they came: no byte is lost or repeated, also
    where one block ends and the next begins. *)
Theorem chunk_buffer_complete (cap : Z) (url : string) (stream : list bytes) :
  concat (write_calls cap url stream) = concat stream.
Proof.
  unfold write_calls.
  rewrite (push_loop_bytes cap stream (push_start url) [] (buffered_start url)).
  reflexivity.
Qed.

(** C3. The chunk sequence falls into consecutive runs [g1 .. gn] followed
    by a remainder; the write calls are the runs' bytes, one block per run,
    and then the remainder's.  A run ends exactly at the chunk with which
    the accumulated size first reaches the capacity: before its last chunk
    the run is below the capacity, with it at or above.  So each block
    written before the end of the sequence has at least the capacity's
    size, exceeds it by no more than its last chunk's size, and is not
    empty; the remainder, written when the sequence ends, is below the
    capacity and may be empty. *)
Theorem blocks_reach_capacity (url : string) (stream : list bytes) :
  exists (groups : list (list bytes)) (rest : list bytes),
    stream = concat groups ++ rest /\
    write_calls _buffer_cap url stream = List.map (@concat byte) groups ++ [concat rest] /\
    Forall
      (fun g =>
         exists init lst,
           g = init ++ [lst] /\
           total init < _buffer_cap /\
           _buffer_cap <= Z.of_nat (length (concat g)) /\
           Z.of_nat (length (concat g)) - _buffer_cap <= Z.of_nat (length lst) /\
           concat g <> [])
      groups /\
    Z.of_nat (length (concat rest)) < _buffer_cap.
Proof.
  destruct (push_loop_groups _buffer_cap stream (push_start url) []
              (buffered_start url) buffer_cap_positive)
    as (groups & rest & Heq & Hfill & Hrest & Hw & _).
  exists groups, rest. repeat split; auto.
  eapply Forall_impl; [exact Hfill|].
  intros g (init & lst & -> & Hlo & Hhi).
  exists init, lst. fold (total (init ++ [lst])).
  rewrite total_app, total_single in *.
  repeat split; auto; try lia.
  intros Hnil. apply (f_equal (fun x => Z.of_nat (length x))) in Hnil.
  fold (total (init ++ [lst])) in Hnil. rewrite total_app, total_single in Hnil.
  cbn in Hnil. pose proof buffer_cap_positive. lia.
Qed.

(** C4 as stated fails on the empty chunk sequence: nothing is left at
    the end, there is no full block, and yet the code makes one write call,
    with no bytes. *)
Lemma empty_final_block_is_written :
  write_calls _buffer_cap "s3://bucket/ns/da1.da" [] = [[]] /\
  ~ skips_empty_final_block _buffer_cap "s3://bucket/ns/da1.da" [].
Proof.
  split; [reflexivity|].
  intros Hskip.
  specialize (Hskip [] [] eq_refl ltac:(constructor) buffer_cap_positive eq_refl).
  discriminate Hskip.
Qed.

(** C4, as the code has it.  When the chunk sequence is exhausted the
    remaining buffer contents are always handed to [fout.write], empty or
    not: there is one write call per full block and one more for the
    remainder.  When the remainder is empty (the last chunk flushed
    everything, or there were no chunks) that last call carries no bytes,
    so the object's content is that of the blocks before it. *)
Theorem final_block_always_written (url : string) (stream : list bytes) :
  exists (groups : list (list bytes)) (rest : list bytes),
    stream = concat groups ++ rest /\
    Forall (fills _buffer_cap) groups /\
    total rest < _buffer_cap /\
    write_calls _buffer_cap url stream = List.map (@concat byte) groups ++ [concat rest] /\
    length (write_calls _buffer_cap url stream) = S (length groups) /\
    (concat rest = [] ->
     concat (write_calls _buffer_cap url stream) = concat (List.map (@concat byte) groups)) /\
    (stream = [] -> write_calls _buffer_cap url stream = [[]]).
Proof.
  destruct (push_loop_groups _buffer_cap stream (push_start url) []
              (buffered_start url) buffer_cap_positive)
    as (groups & rest & Heq & Hfill & Hrest & Hw & _).
  assert (Hw' : write_calls _buffer_cap url stream
                = List.map (@concat byte) groups ++ [concat rest]).
  { unfold write_calls. rewrite Hw. reflexivity. }
  exists groups, rest. repeat split; auto.
  - rewrite Hw', length_app, length_map. cbn. lia.
  - intros Hnil. rewrite Hw', concat_app, Hnil. cbn. now rewrite app_nil_r.
  - intros ->. reflexivity.
Qed.

(** A single chunk that reaches the capacity goes out at once, and the
    write at the end of the stream then has nothing left to carry. *)
Lemma flush_leaves_empty_final (cap : Z) (url : string) (chunk : bytes) :
  cap <= Z.of_nat (length chunk) ->
  write_calls cap url [chunk] = [chunk; []].
Proof.
  intros Hc. unfold write_calls. cbn [push_loop].
  assert (Hge : cap <= total ([] ++ [chunk])) by (cbn [app]; now rewrite total_single).
  destruct (push_iter_flush cap (push_start url) [] chunk (buffered_start url) Hge)
    as (Hf & _ & Hb).
  destruct (push_stop_writes _ [] Hb) as [-> _]. rewrite Hf.
  cbn. now rewrite app_nil_r.
Qed.

(** ** Push, then pull *)

(** C1. Let [name] be a valid path (it has a '/') and let the codec decode,
    under the tags protobuf and gzip, what it encoded under the same tags
    for the documents [D].  Then [push] of [D] under [name] succeeds with the
    empty summary, and [pull] of [name] from the resulting store gives back
    exactly [D], same documents in the same order; [D] may be empty. *)
Theorem push_pull_roundtrip {Doc DocType : Type} `{Codec Doc DocType}
    (D : list Doc) (cls : DocType) (name : string)
    (public show_progress show_progress' local_cache : bool)
    (branding : option (gmap string string)) (w : World) :
  has_slash name = true ->
  _from_binary_stream cls
    (concat (_to_binary_stream D "protobuf" "gzip" show_progress))
    "protobuf" "gzip" show_progress' = Ok D ->
  exists w',
    push D name public show_progress branding w = (Ok ∅, w') /\
    pull cls name show_progress' local_cache w' = (Ok D, w').
Proof.
  intros Hs Hcodec.
  destruct (first_slash_exists name Hs) as (bucket & k & -> & Hb).
  pose proof (unpack_split_slash bucket k Hb) as Hu.
  unfold push, pull.
  destruct (push_stream_split D _ bucket k public show_progress branding w Hu)
    as [out ->].
  eexists. split; [reflexivity|].
  rewrite (pull_stream_split cls _ bucket k show_progress' local_cache _ Hu).
  cbn [remote]. rewrite lookup_insert_eq. now rewrite Hcodec.
Qed.

Lemma push_pull_roundtrip_witness :
  (exists w',
      push [x0a; x0b; x0c] "bucket/ns/da1" false false None (mkWorld ∅ []) = (Ok ∅, w') /\
      pull tt "bucket/ns/da1" false false w' = (Ok [x0a; x0b; x0c], w')) /\
  (exists w',
      push ([] : list byte) "bucket/ns/da1" false false None (mkWorld ∅ []) = (Ok ∅, w') /\
      pull tt "bucket/ns/da1" false false w' = (Ok [], w')).
Proof.
  split.
  - apply (push_pull_roundtrip [x0a; x0b; x0c] tt "bucket/ns/da1"); reflexivity.
  - apply (push_pull_roundtrip [] tt "bucket/ns/da1"); reflexivity.
Defined.

(** ** Arguments that [push] does not look at *)

(** C10. Two runs of [push_stream], or of [push], that differ only in
    [public] and [branding] end in the same store and the same result; and
    a result that is returned is the empty dictionary. *)
Theorem public_and_branding_are_ignored {Doc DocType : Type} `{Codec Doc DocType}
    (docs : list Doc) (name : string) (show_progress : bool)
    (public public' : bool) (branding branding' : option (gmap string string))
    (w : World) :
  push_stream docs name public show_progress branding w
  = push_stream docs name public' show_progress branding' w /\
  push docs name public show_progress branding w
  = push docs name public' show_progress branding' w /\
  match fst (push_stream docs name public show_progress branding w) with
  | Ok summary => summary = ∅
  | Raise _ => True
  end /\
  match fst (push docs name public show_progress branding w) with
  | Ok summary => summary = ∅
  | Raise _ => True
  end.
Proof.
  assert (Hsum : match fst (push_stream docs name public show_progress branding w) with
                 | Ok summary => summary = ∅
                 | Raise _ => True
                 end).
  { destruct (unpack2 (Str.split "/" 1 name)) as [[bucket k]|e] eqn:Hu.
    - destruct (push_stream_split docs name bucket k public show_progress branding w Hu)
        as [out ->]. reflexivity.
    - now rewrite (push_stream_unsplit docs name public show_progress branding e w Hu). }
  repeat split; auto.
Qed.

(** ** Deleting *)

(** The in-memory S3 keeps the store's promise: an object that was deleted
    is absent afterwards. *)
Lemma mem_deleted_is_absent (b x : string) (s s' : MemS3) :
  object_delete b x s = (Ok tt, s') ->
  exists msg, object_load b x s' = (Raise (ClientError "404" msg), s').
Proof.
  cbn. intros [= <-]. exists "Not Found". cbn [mem_objects].
  replace (existsb (mem_has b x)
             (List.filter (fun p => negb (mem_has b x p)) (mem_objects s)))
    with false; [reflexivity|].
  symmetry. induction (mem_objects s) as [|p l IH]; cbn [List.filter existsb].
  - reflexivity.
  - destruct (mem_has b x p) eqn:Hp; cbn [negb existsb]; [exact IH|].
    now rewrite Hp, IH.
Qed.

(** C7. [delete] on a valid path [bucket/k] first loads the object
    [k.da] of [bucket].  If the load reports 404 (the object is absent),
    [delete] returns [False] when [missing_ok] is set and raises the
    not-found [ValueError] when it is not, and the object's [delete] is not
    called.  If the load succeeds (the object is present), the object is
    deleted and the result is [True].  On a store in which a deleted object
    is absent afterwards, deleting the same name again does exactly what
    deleting an absent name does. *)
Theorem delete_checks_existence {St : Type} `{S3Resource St}
    (bucket k : string) (st : St) :
  has_slash bucket = false ->
  (forall b x s s',
      object_delete b x s = (Ok tt, s') ->
      exists msg, object_load b x s' = (Raise (ClientError "404" msg), s')) ->
  (forall msg st1,
      object_load bucket (k +:+ ".da") st = (Raise (ClientError "404" msg), st1) ->
      delete (bucket +:+ "/" +:+ k) true st = (Ok false, st1) /\
      delete (bucket +:+ "/" +:+ k) false st
      = (Raise (ValueError ("Object " +:+ k +:+ " does not exist")), st1)) /\
  (forall missing_ok st1 st2,
      object_load bucket (k +:+ ".da") st = (Ok tt, st1) ->
      object_delete bucket (k +:+ ".da") st1 = (Ok tt, st2) ->
      delete (bucket +:+ "/" +:+ k) missing_ok st = (Ok true, st2) /\
      delete (bucket +:+ "/" +:+ k) true st2 = (Ok false, st2) /\
      delete (bucket +:+ "/" +:+ k) false st2
      = (Raise (ValueError ("Object " +:+ k +:+ " does not exist")), st2)).
Proof.
  intros Hb Hstore. pose proof (unpack_split_slash bucket k Hb) as Hu.
  assert (Habsent : forall s msg s1,
             object_load bucket (k +:+ ".da") s = (Raise (ClientError "404" msg), s1) ->
             delete (bucket +:+ "/" +:+ k) true s = (Ok false, s1) /\
             delete (bucket +:+ "/" +:+ k) false s
             = (Raise (ValueError ("Object " +:+ k +:+ " does not exist")), s1)).
  { intros s msg s1 Hl.
    rewrite !(delete_split _ bucket k _ s Hu), Hl. split; reflexivity. }
  split.
  - intros msg st1. apply Habsent.
  - intros missing_ok st1 st2 Hl Hd. split.
    + rewrite (delete_split _ bucket k _ st Hu), Hl, Hd. reflexivity.
    + destruct (Hstore _ _ _ _ Hd) as [msg Hgone]. exact (Habsent _ _ _ Hgone).
Qed.

Lemma delete_checks_existence_witness :
  delete "bucket/ns/a" true
    (mkMem [("bucket", mkObj "ns/a.da" "2023-03-01 10:00:00+00:00" 2048)])
  = (Ok true, mkMem []) /\
  delete "bucket/ns/a" true (mkMem []) = (Ok false, mkMem []) /\
  delete "bucket/ns/a" false (mkMem [])
  = (Raise (ValueError "Object ns/a does not exist"), mkMem []).
Proof.
  destruct (delete_checks_existence (St := MemS3) "bucket" "ns/a"
              (mkMem [("bucket", mkObj "ns/a.da" "2023-03-01 10:00:00+00:00" 2048)])
              eq_refl mem_deleted_is_absent) as [_ Hpresent].
  exact (Hpresent true _ (mkMem []) eq_refl eq_refl).
Defined.

(** C8. On a valid path, an error of the existence check other than a
    [ClientError] with code 404 (another code, or another kind of
    exception) leaves [delete] as it came: the same exception, not wrapped,
    whatever [missing_ok] says, and the object's [delete] is not called. *)
Theorem delete_propagates_other_errors {St : Type} `{S3Resource St}
    (bucket k : string) (missing_ok : bool) (e : exn) (st st1 : St) :
  has_slash bucket = false ->
  object_load bucket (k +:+ ".da") st = (Raise e, st1) ->
  (forall message, e <> ClientError "404" message) ->
  delete (bucket +:+ "/" +:+ k) missing_ok st = (Raise e, st1).
Proof.
  intros Hb Hl Hne. pose proof (unpack_split_slash bucket k Hb) as Hu.
  rewrite (delete_split _ bucket k _ st Hu), Hl.
  destruct e as [msg|code message|msg|c msg]; try reflexivity.
  destruct (String.eqb code "404") eqn:Hcode; [|reflexivity].
  apply String.eqb_eq in Hcode. subst code. now destruct (Hne message).
Qed.

Lemma delete_propagates_other_errors_witness :
  delete "bucket/ns/a" true (mkFaulty (ClientError "403" "Forbidden"))
  = (Raise (ClientError "403" "Forbidden"), mkFaulty (ClientError "403" "Forbidden")) /\
  delete "bucket/ns/a" true (mkFaulty (OtherError "EndpointConnectionError" "timed out"))
  = (Raise (OtherError "EndpointConnectionError" "timed out"),
     mkFaulty (OtherError "EndpointConnectionError" "timed out")).
Proof.
  split.
  - apply (delete_propagates_other_errors (St := FaultyS3) "bucket" "ns/a" true
             (ClientError "403" "Forbidden")); [reflexivity | reflexivity | discriminate].
  - apply (delete_propagates_other_errors (St := FaultyS3) "bucket" "ns/a" true
             (OtherError "EndpointConnectionError" "timed out"));
      [reflexivity | reflexivity | discriminate].
Defined.

(** ** Listing *)

Lemma strip_path_prefix_plain (s : string) :
  has_slash s = false -> strip_path_prefix s = s.
Proof.
  destruct s as [|c s]; cbn [has_char strip_path_prefix]; [reflexivity|].
  intros Hs. apply orb_false_elim in Hs as [Hc Hs]. now rewrite Hs, Hc.
Qed.

Lemma split_with_sep_has_two (sep : ascii) (s : string) :
  forall m, m < 0 -> has_char sep s = true ->
  exists h x t, Str.split sep m s = h :: x :: t.
Proof.
  induction s as [|c s IH]; intros m Hm Hs; cbn [has_char Str.split] in *.
  - discriminate.
  - replace (m =? 0) with false by (symmetry; apply Z.eqb_neq; lia).
    destruct (Ascii.eqb c sep) eqn:Hc.
    + pose proof (split_not_nil sep (m - 1) s) as Hne.
      destruct (Str.split sep (m - 1) s) as [|x t]; [congruence|]. eauto.
    + cbn [orb] in Hs. destruct (IH m Hm Hs) as (h & x & t & ->). eauto.
Qed.

Lemma last_cons_default (x d : string) (t : list string) :
  List.last (x :: t) d = List.last t x.
Proof.
  revert x d. induction t as [|y t IH]; intros x d; [reflexivity|].
  change (List.last (x :: y :: t) d) with (List.last (y :: t) d).
  now rewrite (IH y d), (IH y x).
Qed.

(** The last piece of a key cut at every '/' is the key without its path
    prefix. *)
Lemma last_segment (s : string) :
  forall m, m < 0 ->
  Str.index_last (Str.split "/" m s) = Ok (strip_path_prefix s).
Proof.
  induction s as [|c s IH]; intros m Hm; cbn [Str.split strip_path_prefix].
  - reflexivity.
  - replace (m =? 0) with false by (symmetry; apply Z.eqb_neq; lia).
    destruct (Ascii.eqb c "/") eqn:Hc.
    + assert (Hm' : m - 1 < 0) by lia. specialize (IH (m - 1) Hm').
      pose proof (split_not_nil "/" (m - 1) s) as Hne.
      destruct (Str.split "/" (m - 1) s) as [|x t]; [congruence|].
      unfold Str.index_last in *. rewrite last_cons_default, IH. f_equal.
      destruct (has_slash s) eqn:Hs; [reflexivity|].
      now apply strip_path_prefix_plain.
    + destruct (has_slash s) eqn:Hs.
      * destruct (split_with_sep_has_two "/" s m Hm Hs) as (h & x & t & Hsp).
        specialize (IH m Hm). rewrite Hsp in *.
        unfold Str.index_last in *. rewrite last_cons_default in *. exact IH.
      * rewrite split_without_sep by assumption. reflexivity.
Qed.

Lemma da_name_last_segment (f : ObjectSummary) :
  da_name f = Str.index_0 (Str.split "." (-1) (strip_path_prefix (key f))).
Proof. unfold da_name. rewrite last_segment by lia. reflexivity. Qed.

Lemma length_append (s t : string) :
  String.length (s +:+ t) = (String.length s + String.length t)%nat.
Proof.
  induction s as [|c s IH]; [reflexivity|].
  change (String c s +:+ t) with (String c (s +:+ t)). cbn [String.length]. now rewrite IH.
Qed.

Lemma substring_prefix (s t : string) : substring 0 (String.length s) (s +:+ t) = s.
Proof.
  induction s as [|c s IH].
  - destruct t; reflexivity.
  - change (String c s +:+ t) with (String c (s +:+ t)).
    cbn [String.length substring]. now rewrite IH.
Qed.

(** Where the name itself has no dot, the name that [list] reports is the
    one the specification describes: the key without path prefix and
    without the extension. *)
Lemma da_name_without_dots (f : ObjectSummary) (stem : string) :
  strip_path_prefix (key f) = stem +:+ ".da" ->
  has_char "." stem = false ->
  da_name f = Ok stem /\ spec_da_name f = stem.
Proof.
  intros Hk Hstem. split.
  - rewrite da_name_last_segment, Hk.
    change (stem +:+ ".da") with (stem +:+ String "." "da").
    rewrite split_at_first_sep by (auto; lia). reflexivity.
  - unfold spec_da_name, strip_extension. rewrite Hk, length_append.
    replace (String.length stem + String.length ".da" - String.length ".da")%nat
      with (String.length stem) by (cbn [String.length]; lia).
    apply substring_prefix.
Qed.

(** [da_name] never raises, so the names come out in the order of the
    listing, one per object that passes the filter. *)
Lemma da_name_total (f : ObjectSummary) : exists n, da_name f = Ok n.
Proof.
  rewrite da_name_last_segment.
  pose proof (split_not_nil "." (-1) (strip_path_prefix (key f))) as Hne.
  destruct (Str.split "." (-1) (strip_path_prefix (key f))) as [|x t]; [congruence|].
  now exists x.
Qed.

Lemma map_result_total {A B} (f : A -> Result B) (l : list A) :
  (forall a, exists b, f a = Ok b) ->
  exists bs, map_result f l = Ok bs /\ length bs = length l /\
             forall i a, l !! i = Some a -> exists b, bs !! i = Some b /\ f a = Ok b.
Proof.
  intros Hf. induction l as [|a l (bs & Hbs & Hlen & Hnth)]; cbn [map_result].
  - exists []. repeat split. intros i a Hi. destruct i; discriminate.
  - destruct (Hf a) as [b Hb]. rewrite Hb, Hbs. cbn [rbind].
    exists (b :: bs). repeat split; [cbn; now rewrite Hlen|].
    intros [|i] a' Hi; cbn in *.
    + injection Hi as <-. eauto.
    + now apply Hnth.
Qed.

(** On a valid path and a listing that succeeds, [list] returns one name
    per object that passes the filter, in the order of the listing. *)
Lemma list_in_listing_order {St : Type} `{S3Resource St} `{Rich}
    (bucket k : string) (st st1 : St) (console : list Table)
    (objs : list ObjectSummary) :
  has_slash bucket = false ->
  objects_all bucket st = (Ok objs, st1) ->
  exists names,
    list_ (bucket +:+ "/" +:+ k) false (st, console) = (Ok names, (st1, console)) /\
    let da_files :=
      List.filter
        (fun obj => Str.startswith (key obj) k && Str.endswith (key obj) ".da") objs in
    length names = length da_files /\
    forall i f, da_files !! i = Some f ->
                exists n, names !! i = Some n /\ da_name f = Ok n.
Proof.
  intros Hb Hl.
  rewrite (list_split _ bucket k st console (unpack_split_slash bucket k Hb)), Hl.
  destruct (map_result_total da_name
              (List.filter
                 (fun obj => Str.startswith (key obj) k && Str.endswith (key obj) ".da")
                 objs) da_name_total) as (names & -> & Hlen & Hnth).
  exists names. auto.
Qed.

(** The table is presentation only. *)
Lemma list_table_irrelevant {St : Type} `{S3Resource St} `{Rich}
    (path : string) (s : St * list Table) :
  fst (list_ path true s) = fst (list_ path false s).
Proof.
  unfold list_, bind, lift, on_s3, console_print, ret. destruct s as [st console].
  destruct (unpack2 (Str.split "/" 1 path)) as [[bucket k]|e]; [|reflexivity].
  destruct (objects_all bucket st) as [[objs|e] st1]; [|reflexivity].
  destruct (map_result da_name _); reflexivity.
Qed.

Example list_filtering :
  list_ "bucket/ns" false
    (mkMem [("bucket", mkObj "ns/a.da" "2023-03-01 10:00:00+00:00" 2048);
            ("bucket", mkObj "ns/b.da" "2023-03-02 10:00:00+00:00" 4096);
            ("bucket", mkObj "other/c.da" "2023-03-03 10:00:00+00:00" 512);
            ("bucket", mkObj "ns/notes.txt" "2023-03-04 10:00:00+00:00" 16)], [])
  = (Ok ["a"; "b"],
     (mkMem [("bucket", mkObj "ns/a.da" "2023-03-01 10:00:00+00:00" 2048);
             ("bucket", mkObj "ns/b.da" "2023-03-02 10:00:00+00:00" 4096);
             ("bucket", mkObj "other/c.da" "2023-03-03 10:00:00+00:00" 512);
             ("bucket", mkObj "ns/notes.txt" "2023-03-04 10:00:00+00:00" 16)], [])).
Proof. reflexivity. Qed.

(** C9, at a name with a dot.  The object [ns/v1.2.da] (what [push] writes
    for the name [bucket/ns/v1.2]) passes the filter of [list], and the
    name the specification describes for it, the key without extension and
    path prefix, is "v1.2"; [list] reports "v1", the key's last segment cut
    at its first dot. *)
Theorem list_cuts_name_at_first_dot :
  list_ "bucket/ns" false
    (mkMem [("bucket", mkObj "ns/v1.2.da" "2023-03-01 10:00:00+00:00" 2048)], [])
  = (Ok ["v1"],
     (mkMem [("bucket", mkObj "ns/v1.2.da" "2023-03-01 10:00:00+00:00" 2048)], [])) /\
  spec_da_name (mkObj "ns/v1.2.da" "2023-03-01 10:00:00+00:00" 2048) = "v1.2" /\
  object_url "bucket" "ns/v1.2" = "s3://bucket/ns/v1.2.da".
Proof. repeat split. Qed.

(** * Further properties of the module *)

(** ** Strings *)

Lemma has_char_append (c : ascii) (a b : string) :
  has_char c (a +:+ b) = has_char c a || has_char c b.
Proof.
  induction a as [|x a IH]; [reflexivity|].
  change (String x a +:+ b) with (String x (a +:+ b)).
  cbn [has_char]. now rewrite IH, orb_assoc.
Qed.

(** [s.startswith(p)] holds exactly when [s] is [p] followed by something. *)
Lemma startswith_spec (s p : string) :
  Str.startswith s p = true <-> exists r, s = p +:+ r.
Proof.
  revert s. induction p as [|a p IH]; intros s.
  - split; [intros _; now exists s | intros _; now destruct s].
  - destruct s as [|b s]; cbn [Str.startswith].
    + split; [discriminate | intros [r Hr]; discriminate Hr].
    + rewrite andb_true_iff, Ascii.eqb_eq, IH. split.
      * intros [-> [r ->]]. now exists r.
      * intros [r Hr]. change (String a p +:+ r) with (String a (p +:+ r)) in Hr.
        injection Hr as -> ->. eauto.
Qed.

Lemma substring_all (s : string) : substring 0 (String.length s) s = s.
Proof. induction s as [|c s IH]; [reflexivity|]. cbn [String.length substring]. now rewrite IH. Qed.

Lemma substring_skip (r p : string) (n : nat) :
  substring (String.length r) n (r +:+ p) = substring 0 n p.
Proof.
  induction r as [|c r IH]; [reflexivity|].
  change (String c r +:+ p) with (String c (r +:+ p)).
  cbn [String.length substring]. exact IH.
Qed.

Lemma substring_split (s : string) (n : nat) :
  (n <= String.length s)%nat ->
  s = substring 0 n s +:+ substring n (String.length s - n) s.
Proof.
  revert n. induction s as [|c s IH]; intros n Hn.
  - destruct n; reflexivity.
  - destruct n as [|n].
    + cbn [String.length Nat.sub]. change (substring 0 0 (String c s)) with EmptyString.
      change (EmptyString +:+ ?x) with x.
      change (substring 0 (S (String.length s)) (String c s))
        with (String c (substring 0 (String.length s) s)).
      now rewrite substring_all.
    + cbn [String.length] in Hn. cbn [String.length substring Nat.sub].
      change (String c ?x +:+ ?y) with (String c (x +:+ y)).
      f_equal. apply IH. lia.
Qed.

(** [s.endswith(p)] holds exactly when [s] is something followed by [p]. *)
Lemma endswith_spec (s p : string) :
  Str.endswith s p = true <-> exists r, s = r +:+ p.
Proof.
  unfold Str.endswith. rewrite andb_true_iff, Nat.leb_le, String.eqb_eq. split.
  - intros [Hle Hsub]. exists (substring 0 (String.length s - String.length p) s).
    rewrite (substring_split s (String.length s - String.length p)) at 1 by lia.
    replace (String.length s - (String.length s - String.length p))%nat
      with (String.length p) by lia.
    now rewrite Hsub.
  - intros [r ->]. rewrite length_append. split; [lia|].
    replace (String.length r + String.length p - String.length p)%nat
      with (String.length r) by lia.
    rewrite substring_skip. apply substring_all.
Qed.

(** ** What [list] returns *)

Lemma map_result_Forall2 {A B} (f : A -> Result B) (l : list A) (bs : list B) :
  map_result f l = Ok bs -> Forall2 (fun a b => f a = Ok b) l bs.
Proof.
  revert bs. induction l as [|a l IH]; intros bs; cbn [map_result].
  - intros [= <-]. constructor.
  - destruct (f a) as [b|e] eqn:Hb; cbn [rbind]; [|discriminate].
    destruct (map_result f l) as [bs'|e]; cbn [rbind]; [|discriminate].
    intros [= <-]. constructor; auto.
Qed.

Lemma split_head_without_sep (sep : ascii) (s : string) :
  forall m h t, m < 0 -> Str.split sep m s = h :: t -> has_char sep h = false.
Proof.
  induction s as [|c s IH]; intros m h t Hm; cbn [Str.split].
  - now intros [= <- <-].
  - replace (m =? 0) with false by (symmetry; apply Z.eqb_neq; lia).
    destruct (Ascii.eqb c sep) eqn:Hc.
    + now intros [= <- <-].
    + destruct (Str.split sep m s) as [|h' t'] eqn:Hs.
      * now intros [= <- <-]; cbn [has_char]; rewrite Hc.
      * intros [= <- <-]. cbn [has_char]. now rewrite Hc, (IH m h' t' Hm Hs).
Qed.

Lemma split_head_keeps_absent (c' sep : ascii) (s : string) :
  forall m h t,
    has_char c' s = false -> Str.split sep m s = h :: t -> has_char c' h = false.
Proof.
  induction s as [|c s IH]; intros m h t Hs; cbn [Str.split].
  - now intros [= <- <-].
  - cbn [has_char] in Hs. apply orb_false_elim in Hs as [Hc Hs].
    destruct (m =? 0); [intros [= <- <-]; cbn [has_char]; now rewrite Hc, Hs|].
    destruct (Ascii.eqb c sep); [now intros [= <- <-]|].
    destruct (Str.split sep m s) as [|h' t'] eqn:Hsp.
    + intros [= <- <-]. cbn [has_char]. now rewrite Hc.
    + intros [= <- <-]. cbn [has_char]. now rewrite Hc, (IH m h' t' Hs Hsp).
Qed.

Lemma strip_path_prefix_no_slash (s : string) : has_slash (strip_path_prefix s) = false.
Proof.
  induction s as [|c s IH]; [reflexivity|]. cbn [strip_path_prefix].
  destruct (has_slash s) eqn:Hs; [exact IH|].
  destruct (Ascii.eqb c "/") eqn:Hc; [exact Hs|].
  cbn [has_char]. now rewrite Hc, Hs.
Qed.

Lemma strip_path_prefix_append (x y : string) :
  has_slash y = false -> strip_path_prefix (x +:+ "/" +:+ y) = y.
Proof.
  intros Hy. induction x as [|c x IH].
  - change (EmptyString +:+ "/" +:+ y) with (String "/" y).
    cbn [strip_path_prefix]. now rewrite Hy.
  - change (String c x +:+ "/" +:+ y) with (String c (x +:+ "/" +:+ y)).
    cbn [strip_path_prefix].
    replace (has_slash (x +:+ "/" +:+ y)) with true; [exact IH|].
    symmetry. rewrite has_char_append.
    change ("/" +:+ y) with (String "/" y). cbn [has_char].
    rewrite Ascii.eqb_refl. cbn [orb]. apply orb_true_r.
Qed.

Lemma da_name_is_plain (f : ObjectSummary) (n : string) :
  da_name f = Ok n -> has_slash n = false /\ has_char "." n = false.
Proof.
  rewrite da_name_last_segment.
  destruct (Str.split "." (-1) (strip_path_prefix (key f))) as [|h t] eqn:Hs;
    cbn [Str.index_0]; [discriminate|].
  intros [= <-]. split.
  - eapply split_head_keeps_absent; [apply strip_path_prefix_no_slash | exact Hs].
  - eapply split_head_without_sep; [|exact Hs]. lia.
Qed.

Lemma filter_sublist {A} (p : A -> bool) (l : list A) : sublist (List.filter p l) l.
Proof.
  induction l as [|a l IH]; cbn [List.filter]; [constructor|].
  destruct (p a); now constructor.
Qed.

Lemma Forall2_elem_of_l {A B} (R : A -> B -> Prop) (l : list A) (k : list B) (a : A) :
  Forall2 R l k -> a ∈ l -> exists b, b ∈ k /\ R a b.
Proof.
  induction 1 as [|x y l k Hxy _ IH]; intros Ha.
  - now apply elem_of_nil in Ha.
  - apply elem_of_cons in Ha as [->|Ha].
    + exists y. split; [left | assumption].
    + destruct (IH Ha) as (b & Hb & Hr). exists b. split; [now right | assumption].
Qed.

(** How [list] goes once the path is split and the listing is there. *)
Lemma list_on_listing {St : Type} `{S3Resource St} `{Rich}
    (bucket k : string) (st st1 : St) (console : list Table)
    (objs : list ObjectSummary) :
  has_slash bucket = false ->
  objects_all bucket st = (Ok objs, st1) ->
  exists names,
    map_result da_name
      (List.filter (fun obj => Str.startswith (key obj) k && Str.endswith (key obj) ".da")
         objs) = Ok names /\
    list_ (bucket +:+ "/" +:+ k) false (st, console) = (Ok names, (st1, console)).
Proof.
  intros Hb Hl.
  rewrite (list_split _ bucket k st console (unpack_split_slash bucket k Hb)), Hl.
  destruct (map_result_total da_name
              (List.filter
                 (fun obj => Str.startswith (key obj) k && Str.endswith (key obj) ".da")
                 objs) da_name_total) as (names & Hn & _).
  exists names. now rewrite Hn.
Qed.

(** X1. On a valid path [bucket/k] and a listing that succeeds, [list]
    returns the names of exactly those listed objects whose key begins with
    [k] and ends with ".da": they are picked in the order of the listing,
    none twice, and each contributes the name [da_name] computes for it. *)
Theorem list_reports_matching_objects {St : Type} `{S3Resource St} `{Rich}
    (bucket k : string) (st st1 : St) (console : list Table)
    (objs : list ObjectSummary) :
  has_slash bucket = false ->
  objects_all bucket st = (Ok objs, st1) ->
  exists names da_files,
    list_ (bucket +:+ "/" +:+ k) false (st, console) = (Ok names, (st1, console)) /\
    Forall2 (fun f n => da_name f = Ok n) da_files names /\
    sublist da_files objs /\
    (forall f, f ∈ da_files <->
               f ∈ objs /\ (exists r, key f = k +:+ r) /\ (exists r, key f = r +:+ ".da")).
Proof.
  intros Hb Hl.
  destruct (list_on_listing bucket k st st1 console objs Hb Hl) as (names & Hn & Hlist).
  exists names, (List.filter
                   (fun obj => Str.startswith (key obj) k && Str.endswith (key obj) ".da")
                   objs).
  split; [exact Hlist|]. split; [now apply map_result_Forall2|].
  split; [apply filter_sublist|].
  intros f. rewrite !list_elem_of_In, List.filter_In, andb_true_iff.
  rewrite startswith_spec, endswith_spec. tauto.
Qed.

Lemma list_reports_matching_objects_witness :
  exists names da_files,
    list_ "bucket/ns" false
      (mkMem [("bucket", mkObj "ns/a.da" "2023-03-01 10:00:00+00:00" 2048);
              ("bucket", mkObj "other/c.da" "2023-03-03 10:00:00+00:00" 512)], [])
    = (Ok names,
       (mkMem [("bucket", mkObj "ns/a.da" "2023-03-01 10:00:00+00:00" 2048);
               ("bucket", mkObj "other/c.da" "2023-03-03 10:00:00+00:00" 512)], [])) /\
    Forall2 (fun f n => da_name f = Ok n) da_files names /\
    sublist da_files
      [mkObj "ns/a.da" "2023-03-01 10:00:00+00:00" 2048;
       mkObj "other/c.da" "2023-03-03 10:00:00+00:00" 512] /\
    (forall f, f ∈ da_files <->
               f ∈ [mkObj "ns/a.da" "2023-03-01 10:00:00+00:00" 2048;
                    mkObj "other/c.da" "2023-03-03 10:00:00+00:00" 512] /\
               (exists r, key f = "ns" +:+ r) /\ (exists r, key f = r +:+ ".da")).
Proof.
  apply (list_reports_matching_objects (St := MemS3) "bucket" "ns"); reflexivity.
Defined.

(** X2. Whatever the path and the store, a name that [list] returns has
    no '/' and no '.' in it: it is a last path segment, cut before its
    first dot. *)
Theorem listed_names_are_plain {St : Type} `{S3Resource St} `{Rich}
    (path : string) (show_table : bool) (s s' : St * list Table)
    (names : list string) :
  list_ path show_table s = (Ok names, s') ->
  Forall (fun n => has_slash n = false /\ has_char "." n = false) names.
Proof.
  intros Hlist.
  assert (Hplain : fst (list_ path false s) = Ok names).
  { rewrite <- list_table_irrelevant. destruct show_table; [now rewrite Hlist|].
    rewrite list_table_irrelevant. now rewrite Hlist. }
  clear Hlist. destruct s as [st console].
  destruct (unpack2 (Str.split "/" 1 path)) as [[bucket k]|e] eqn:Hu.
  - rewrite (list_split path bucket k st console Hu) in Hplain.
    destruct (objects_all bucket st) as [[objs|e] st1]; [|discriminate].
    cbn [fst] in Hplain. apply map_result_Forall2 in Hplain.
    induction Hplain as [|f n fs ns Hn _ IH]; constructor; auto.
    now apply (da_name_is_plain f).
  - now rewrite (list_unsplit path false e (st, console) Hu) in Hplain.
Qed.

Lemma listed_names_are_plain_witness :
  Forall (fun n => has_slash n = false /\ has_char "." n = false) ["a"; "v1"].
Proof.
  eapply (listed_names_are_plain (St := MemS3) "bucket/ns" true
            (mkMem [("bucket", mkObj "ns/sub/a.da" "2023-03-01 10:00:00+00:00" 2048);
                    ("bucket", mkObj "ns/v1.2.da" "2023-03-02 10:00:00+00:00" 4096)], [])).
  lazy. reflexivity.
Defined.

(** X3. A name [n] without '/' and '.' that was stored under
    [bucket/k.../n], that is, whose object has the key [k ++ r ++ "/" ++ n
    ++ ".da"] that [push] and [delete] build for it, comes back from
    [list] of [bucket/k] as [n], whenever the store lists that object. *)
Theorem stored_name_is_listed {St : Type} `{S3Resource St} `{Rich}
    (bucket k r n : string) (st st1 : St) (console : list Table)
    (objs : list ObjectSummary) (f : ObjectSummary) :
  has_slash bucket = false ->
  has_slash n = false ->
  has_char "." n = false ->
  objects_all bucket st = (Ok objs, st1) ->
  f ∈ objs ->
  key f = k +:+ r +:+ "/" +:+ n +:+ ".da" ->
  object_url bucket (k +:+ r +:+ "/" +:+ n) = "s3://" +:+ bucket +:+ "/" +:+ key f /\
  exists names,
    list_ (bucket +:+ "/" +:+ k) false (st, console) = (Ok names, (st1, console)) /\
    n ∈ names.
Proof.
  intros Hb Hn Hdot Hl Hf Hkey. split.
  - unfold object_url. rewrite Hkey. now rewrite !append_assoc.
  - destruct (list_on_listing bucket k st st1 console objs Hb Hl) as (names & Hnames & Hlist).
    exists names. split; [exact Hlist|].
    apply map_result_Forall2 in Hnames.
    assert (Hin : f ∈ List.filter
                    (fun obj => Str.startswith (key obj) k && Str.endswith (key obj) ".da")
                    objs).
    { rewrite list_elem_of_In, List.filter_In, andb_true_iff, <- list_elem_of_In.
      split; [exact Hf|]. rewrite startswith_spec, endswith_spec, Hkey. split.
      - now exists (r +:+ "/" +:+ n +:+ ".da").
      - exists (k +:+ r +:+ "/" +:+ n). now rewrite !append_assoc. }
    destruct (Forall2_elem_of_l _ _ _ f Hnames Hin) as (n' & Hn' & Hname).
    assert (Hstem : da_name f = Ok n).
    { apply (da_name_without_dots f n); [|exact Hdot].
      rewrite Hkey.
      replace (k +:+ r +:+ "/" +:+ n +:+ ".da")
        with ((k +:+ r) +:+ "/" +:+ (n +:+ ".da")) by now rewrite !append_assoc.
      apply strip_path_prefix_append. rewrite has_char_append, Hn. reflexivity. }
    rewrite Hstem in Hname. now injection Hname as <-.
Qed.

Lemma stored_name_is_listed_witness :
  exists names,
    list_ "bucket/ns" false
      (mkMem [("bucket", mkObj "ns/2023/run7.da" "2023-03-01 10:00:00+00:00" 2048)], [])
    = (Ok names,
       (mkMem [("bucket", mkObj "ns/2023/run7.da" "2023-03-01 10:00:00+00:00" 2048)], [])) /\
    "run7" ∈ names.
Proof.
  apply (stored_name_is_listed (St := MemS3) "bucket" "ns" "/2023" "run7"
           (mkMem [("bucket", mkObj "ns/2023/run7.da" "2023-03-01 10:00:00+00:00" 2048)])
           (mkMem [("bucket", mkObj "ns/2023/run7.da" "2023-03-01 10:00:00+00:00" 2048)])
           []
           [mkObj "ns/2023/run7.da" "2023-03-01 10:00:00+00:00" 2048]
           (mkObj "ns/2023/run7.da" "2023-03-01 10:00:00+00:00" 2048));
    try reflexivity.
  apply list_elem_of_here.
Defined.

Lemma map_fst_combine_rows {A B C} (g : A * B -> A * C) (xs : list A) (ys : list B) :
  (forall p, fst (g p) = fst p) ->
  length xs = length ys ->
  List.map (fun row => fst (g row)) (List.combine xs ys) = xs.
Proof.
  intros Hg. revert ys. induction xs as [|x xs IH]; intros [|y ys] Hlen;
    cbn in *; try discriminate; [reflexivity|].
  rewrite Hg. cbn. f_equal. apply IH. lia.
Qed.

(** X4. With [show_table] set, [list] returns the same names as without
    and prints one table; the table's rows are the returned names, one row
    per name and in the same order, and its title gives their number, the
    bucket and the namespace.  Without [show_table] nothing is printed. *)
Theorem list_table_matches_names {St : Type} `{S3Resource St} `{Rich}
    (bucket k : string) (st st1 : St) (console : list Table)
    (objs : list ObjectSummary) :
  has_slash bucket = false ->
  objects_all bucket st = (Ok objs, st1) ->
  exists names table,
    list_ (bucket +:+ "/" +:+ k) false (st, console) = (Ok names, (st1, console)) /\
    list_ (bucket +:+ "/" +:+ k) true (st, console)
    = (Ok names, (st1, console ++ [table])) /\
    List.map (fun row => fst (fst row)) (rows table) = names /\
    columns table = ["Name"; "Last Modified"; "Size"] /\
    title table
    = "You have " +:+ pretty (length names) +:+ " DocumentArrays in bucket s3://"
      +:+ bucket +:+ " under the namespace " +:+ dquote +:+ k +:+ dquote.
Proof.
  intros Hb Hl.
  destruct (list_on_listing bucket k st st1 console objs Hb Hl) as (names & Hnames & Hlist).
  pose proof (unpack_split_slash bucket k Hb) as Hu.
  assert (Hlen : length names
                 = length (List.filter
                             (fun obj => Str.startswith (key obj) k
                                         && Str.endswith (key obj) ".da") objs)).
  { apply map_result_Forall2 in Hnames. symmetry. eapply Forall2_length, Hnames. }
  eexists names, _. split; [exact Hlist|].
  unfold list_, bind, lift, on_s3, console_print, ret. rewrite Hu, Hl, Hnames.
  split; [reflexivity|]. cbn [rows columns title]. split; [|split; [reflexivity|]].
  - rewrite List.map_map.
    rewrite <- (map_fst_combine_rows
                  (fun '(da_name, da_file) => (da_name, last_modified da_file))
                  names _ (fun '(a, b) => eq_refl) Hlen) at 2.
    apply List.map_ext. now intros [a b].
  - now rewrite Hlen.
Qed.

Lemma list_table_matches_names_witness :
  exists names table,
    list_ "bucket/ns" false
      (mkMem [("bucket", mkObj "ns/a.da" "2023-03-01 10:00:00+00:00" 2048)], [])
    = (Ok names, (mkMem [("bucket", mkObj "ns/a.da" "2023-03-01 10:00:00+00:00" 2048)], [])) /\
    list_ "bucket/ns" true
      (mkMem [("bucket", mkObj "ns/a.da" "2023-03-01 10:00:00+00:00" 2048)], [])
    = (Ok names,
       (mkMem [("bucket", mkObj "ns/a.da" "2023-03-01 10:00:00+00:00" 2048)], [] ++ [table])) /\
    List.map (fun row => fst (fst row)) (rows table) = names /\
    columns table = ["Name"; "Last Modified"; "Size"] /\
    title table
    = "You have " +:+ pretty (length names) +:+ " DocumentArrays in bucket s3://"
      +:+ "bucket" +:+ " under the namespace " +:+ dquote +:+ "ns" +:+ dquote.
Proof.
  apply (list_table_matches_names (St := MemS3) "bucket" "ns"
           (mkMem [("bucket", mkObj "ns/a.da" "2023-03-01 10:00:00+00:00" 2048)])
           (mkMem [("bucket", mkObj "ns/a.da" "2023-03-01 10:00:00+00:00" 2048)])
           [] [mkObj "ns/a.da" "2023-03-01 10:00:00+00:00" 2048]); reflexivity.
Defined.

(** ** Pushing again *)

(** X5. A second [push] under a name replaces what the first one stored:
    both succeed, [pull] then returns the second collection (the codec
    decoding what it encoded for it), and the objects of the store are
    those that the second push alone would have left. *)
Theorem last_push_wins {Doc DocType : Type} `{Codec Doc DocType}
    (D1 D2 : list Doc) (cls : DocType) (name : string)
    (public1 public2 show_progress1 show_progress2 show_progress' local_cache : bool)
    (branding1 branding2 : option (gmap string string)) (w : World) :
  has_slash name = true ->
  _from_binary_stream cls
    (concat (_to_binary_stream D2 "protobuf" "gzip" show_progress2))
    "protobuf" "gzip" show_progress' = Ok D2 ->
  exists w1 w2,
    push D1 name public1 show_progress1 branding1 w = (Ok ∅, w1) /\
    push D2 name public2 show_progress2 branding2 w1 = (Ok ∅, w2) /\
    pull cls name show_progress' local_cache w2 = (Ok D2, w2) /\
    remote w2 = remote (snd (push D2 name public2 show_progress2 branding2 w)).
Proof.
  intros Hs Hcodec.
  destruct (first_slash_exists name Hs) as (bucket & k & -> & Hb).
  pose proof (unpack_split_slash bucket k Hb) as Hu.
  unfold push, pull.
  destruct (push_stream_split D1 _ bucket k public1 show_progress1 branding1 w Hu)
    as [out1 ->].
  destruct (push_stream_split D2 _ bucket k public2 show_progress2 branding2 w Hu)
    as [out2' ->].
  eexists. 
  destruct (push_stream_split D2 _ bucket k public2 show_progress2 branding2
              (mkWorld (<[object_url bucket k :=
                            concat (_to_binary_stream D1 "protobuf" "gzip" show_progress1)]>
                          (remote w)) (stdout w ++ out1)) Hu) as [out2 ->].
  eexists. split; [reflexivity|]. split; [reflexivity|]. split.
  - rewrite (pull_stream_split cls _ bucket k show_progress' local_cache _ Hu).
    cbn [remote]. rewrite lookup_insert_eq. now rewrite Hcodec.
  - cbn [remote snd]. apply insert_insert_eq.
Qed.

Lemma last_push_wins_witness :
  exists w1 w2,
    push [x0a; x0b; x0c] "bucket/ns/da1" false false None (mkWorld ∅ []) = (Ok ∅, w1) /\
    push [x0d] "bucket/ns/da1" true false None w1 = (Ok ∅, w2) /\
    pull tt "bucket/ns/da1" false false w2 = (Ok [x0d], w2) /\
    remote w2 = remote (snd (push [x0d] "bucket/ns/da1" true false None (mkWorld ∅ []))).
Proof.
  apply (last_push_wins [x0a; x0b; x0c] [x0d] tt "bucket/ns/da1"); reflexivity.
Defined.

(** ** How much is buffered, and how often is written *)

Lemma bytesio_write_length (b : BytesIO.t) (data : bytes) :
  (BytesIO.pos b <= length (BytesIO.buf b))%nat ->
  length (BytesIO.buf (snd (BytesIO.write b data)))
  = Nat.max (length (BytesIO.buf b)) (BytesIO.pos b + length data).
Proof.
  intros Hpos. destruct data as [|d data]; cbn [BytesIO.write snd BytesIO.buf].
  - cbn [length]. lia.
  - rewrite !length_app, length_take, length_replicate, length_drop. cbn [length]. lia.
Qed.

Lemma push_iter_buf (cap : Z) (l : Locals) (chunk : bytes) :
  BytesIO.buf (_buffer (push_iter cap l chunk))
  = BytesIO.buf (snd (BytesIO.write (_buffer l) chunk)).
Proof.
  unfold push_iter.
  destruct (BytesIO.write (_buffer l) chunk) as [n b].
  destruct (_buffer_size l + n >=? cap); [|reflexivity].
  destruct (BytesIO.read (BytesIO.seek b 0) (_buffer_size l + n)) eqn:Hr.
  unfold BytesIO.read in Hr. injection Hr as _ <-. reflexivity.
Qed.

Lemma push_loop_app (cap : Z) (seen rest : list bytes) (l : Locals) :
  push_loop cap (seen ++ rest) l = push_loop cap rest (fold_left (push_iter cap) seen l).
Proof.
  revert l. induction seen as [|chunk seen IH]; intros l; [reflexivity|].
  cbn [app push_loop fold_left]. apply IH.
Qed.

Lemma push_iters_bounded (cap : Z) (m : nat) (seen : list bytes) :
  forall (l : Locals) (cur : list bytes),
    buffered l cur -> total cur < cap ->
    Z.of_nat (length (BytesIO.buf (_buffer l))) < cap + Z.of_nat m ->
    Forall (fun chunk => (length chunk <= m)%nat) seen ->
    exists cur',
      buffered (fold_left (push_iter cap) seen l) cur' /\
      total cur' < cap /\
      Z.of_nat (length (BytesIO.buf (_buffer (fold_left (push_iter cap) seen l))))
      < cap + Z.of_nat m.
Proof.
  induction seen as [|chunk seen IH]; intros l cur Hb Hcur Hlen Hm; cbn [fold_left].
  - eauto.
  - apply Forall_cons in Hm as [Hchunk Hm].
    assert (Hlen' : Z.of_nat (length (BytesIO.buf (_buffer (push_iter cap l chunk))))
                    < cap + Z.of_nat m).
    { rewrite push_iter_buf. destruct Hb as (_ & Hpos & Hbuf).
      pose proof (take_prefix_fits _ _ Hbuf) as Hfit.
      rewrite bytesio_write_length by lia. rewrite Hpos.
      unfold total in Hcur. lia. }
    destruct (Z_lt_le_dec (total (cur ++ [chunk])) cap) as [Hlt|Hge].
    + destruct (push_iter_keep cap l cur chunk Hb Hlt) as (_ & _ & Hb').
      exact (IH _ _ Hb' Hlt Hlen' Hm).
    + destruct (push_iter_flush cap l cur chunk Hb Hge) as (_ & _ & Hb').
      assert (H0 : total [] < cap) by (pose proof (total_nonneg cur); unfold total at 1; cbn; lia).
      exact (IH _ _ Hb' H0 Hlen' Hm).
Qed.

(** X7. The upload buffers a bounded amount.  With a positive capacity
    and chunks of at most [m] bytes, at every point of the loop (after any
    number of chunks [seen], with [rest] still to come) the counter
    [_buffer_size] is below the capacity and the [BytesIO] buffer holds
    fewer than capacity plus [m] bytes, however long the stream is. *)
Theorem buffer_stays_bounded (cap : Z) (m : nat) (url : string) (seen rest : list bytes) :
  0 < cap ->
  Forall (fun chunk => (length chunk <= m)%nat) seen ->
  push_loop cap (seen ++ rest) (push_start url)
  = push_loop cap rest (fold_left (push_iter cap) seen (push_start url)) /\
  0 <= _buffer_size (fold_left (push_iter cap) seen (push_start url)) < cap /\
  Z.of_nat (length (BytesIO.buf (_buffer (fold_left (push_iter cap) seen (push_start url)))))
  < cap + Z.of_nat m.
Proof.
  intros Hcap Hm. split; [apply push_loop_app|].
  destruct (push_iters_bounded cap m seen (push_start url) [] (buffered_start url))
    as (cur & (Hsz & _) & Hcur & Hlen); auto.
  - cbn. lia.
  - rewrite Hsz. pose proof (total_nonneg cur). lia.
Qed.

Lemma buffer_stays_bounded_witness :
  0 <= _buffer_size
         (fold_left (push_iter 4) [[x01; x02]; [x03; x04; x05]; [x06]]
            (push_start "s3://bucket/ns/da1.da")) < 4 /\
  Z.of_nat (length (BytesIO.buf (_buffer
         (fold_left (push_iter 4) [[x01; x02]; [x03; x04; x05]; [x06]]
            (push_start "s3://bucket/ns/da1.da"))))) < 4 + Z.of_nat 3.
Proof.
  apply (buffer_stays_bounded 4 3 "s3://bucket/ns/da1.da"
           [[x01; x02]; [x03; x04; x05]; [x06]] []).
  - reflexivity.
  - repeat constructor.
Defined.

Lemma groups_total (cap : Z) (groups : list (list bytes)) :
  Forall (fills cap) groups ->
  Z.of_nat (length groups) * cap <= total (concat groups).
Proof.
  induction 1 as [|g groups (init & lst & -> & _ & Hg) _ IH].
  - cbn. unfold total. cbn. lia.
  - cbn [concat length]. rewrite total_app. lia.
Qed.

(** X8. The number of writes is bounded by the size of the payload: with
    a positive capacity, all write calls but the last carry at least the
    capacity each, so (calls - 1) * capacity is at most the number of bytes
    in the stream; and "flushing" is printed once for each of those calls. *)
Theorem write_count_bounded (cap : Z) (url : string) (stream : list bytes) :
  0 < cap ->
  (Z.of_nat (length (write_calls cap url stream)) - 1) * cap <= total stream /\
  printed (push_loop cap stream (push_start url))
  = replicate (length (write_calls cap url stream) - 1) "flushing".
Proof.
  intros Hcap.
  destruct (push_loop_groups cap stream (push_start url) [] (buffered_start url) Hcap)
    as (groups & rest & Heq & Hfill & Hrest & Hw & Hpr).
  unfold write_calls. rewrite Hw, Hpr. cbn [push_start fout printed open_wb w_calls app].
  rewrite length_app, length_map. cbn [length].
  replace (length groups + 1 - 1)%nat with (length groups) by lia.
  split; [|reflexivity].
  cbn [app] in Heq. rewrite Heq, total_app.
  pose proof (groups_total cap groups Hfill). pose proof (total_nonneg rest). lia.
Qed.

Lemma write_count_bounded_witness :
  (Z.of_nat (length (write_calls 4 "s3://bucket/ns/da1.da"
                       [[x01; x02]; [x03; x04; x05]; [x06]])) - 1) * 4
  <= total [[x01; x02]; [x03; x04; x05]; [x06]] /\
  printed (push_loop 4 [[x01; x02]; [x03; x04; x05]; [x06]]
             (push_start "s3://bucket/ns/da1.da"))
  = replicate (length (write_calls 4 "s3://bucket/ns/da1.da"
                         [[x01; x02]; [x03; x04; x05]; [x06]]) - 1) "flushing".
Proof.
  apply (write_count_bounded 4 "s3://bucket/ns/da1.da"
           [[x01; x02]; [x03; x04; x05]; [x06]]).
  reflexivity.
Defined.

(** X9. A stream that stays below the capacity is uploaded in a single
    write: the only write call is the one at the end of the stream, it
    carries all the bytes, and nothing is printed. *)
Theorem small_stream_single_write (cap : Z) (url : string) (stream : list bytes) :
  total stream < cap ->
  write_calls cap url stream = [concat stream] /\
  printed (push_loop cap stream (push_start url)) = [].
Proof.
  intros Hsmall.
  assert (Hcap : total [] < cap) by (pose proof (total_nonneg stream); unfold total at 1; cbn; lia).
  destruct (push_loop_groups cap stream (push_start url) [] (buffered_start url) Hcap)
    as (groups & rest & Heq & Hfill & Hrest & Hw & Hpr).
  cbn [app] in Heq.
  destruct groups as [|g groups].
  - cbn [concat app] in Heq. subst rest. unfold write_calls. now rewrite Hw, Hpr.
  - exfalso. pose proof (groups_total cap (g :: groups) Hfill) as Hg.
    rewrite Heq, total_app in Hsmall. pose proof (total_nonneg rest).
    cbn [length] in Hg. nia.
Qed.

Lemma small_stream_single_write_witness :
  write_calls _buffer_cap "s3://bucket/ns/da1.da" [[x01]; [x0a; x0b]] = [[x01; x0a; x0b]] /\
  printed (push_loop _buffer_cap [[x01]; [x0a; x0b]] (push_start "s3://bucket/ns/da1.da")) = [].
Proof.
  apply (small_stream_single_write _buffer_cap "s3://bucket/ns/da1.da" [[x01]; [x0a; x0b]]).
  reflexivity.
Defined.

(** ** Store failures in [list] and [delete] *)

(** X10. On a valid path, [list] lets an error of the listing through as
    it is, with or without [show_table], and prints no table; [delete]
    lets an error of the object's deletion through as it is and does not
    return [True]. *)
Theorem store_errors_pass_through {St : Type} `{S3Resource St} `{Rich}
    (bucket k : string) (st : St) (console : list Table) :
  has_slash bucket = false ->
  (forall e st1 show_table,
      objects_all bucket st = (Raise e, st1) ->
      list_ (bucket +:+ "/" +:+ k) show_table (st, console) = (Raise e, (st1, console))) /\
  (forall e st1 st2 missing_ok,
      object_load bucket (k +:+ ".da") st = (Ok tt, st1) ->
      object_delete bucket (k +:+ ".da") st1 = (Raise e, st2) ->
      delete (bucket +:+ "/" +:+ k) missing_ok st = (Raise e, st2)).
Proof.
  intros Hb. pose proof (unpack_split_slash bucket k Hb) as Hu. split.
  - intros e st1 show_table Hl.
    unfold list_, bind, lift, on_s3. now rewrite Hu, Hl.
  - intros e st1 st2 missing_ok Hl Hd.
    now rewrite (delete_split _ bucket k missing_ok st Hu), Hl, Hd.
Qed.

Lemma store_errors_pass_through_witness :
  list_ "bucket/ns" true (mkFaulty (ClientError "NoSuchBucket" "no such bucket"), [])
  = (Raise (ClientError "NoSuchBucket" "no such bucket"),
     (mkFaulty (ClientError "NoSuchBucket" "no such bucket"), [])) /\
  delete "bucket/ns/a" true (mkReadOnly [])
  = (Raise (ClientError "AccessDenied" "Access Denied"), mkReadOnly []).
Proof.
  split.
  - apply (store_errors_pass_through (St := FaultyS3) "bucket" "ns"); reflexivity.
  - apply (proj2 (store_errors_pass_through (St := ReadOnlyS3) "bucket" "ns/a"
                    (mkReadOnly []) [] eq_refl)
             (ClientError "AccessDenied" "Access Denied") (mkReadOnly []));
      reflexivity.
Defined.
